(** * Verification of the V2Ray subscription processor
    ([process_subscriptions.py]).

    The program reads a list of subscription URLs, fetches every one of them,
    decides whether the body is base64 or raw text, splits it into lines,
    keeps the lines that start with a known proxy scheme, collects them in a
    set and writes the sorted set, one entry per line.

    The development is a shallow embedding: every Python function of the
    script is a Rocq function of the same name.  Python values are modelled
    as follows.
    - [str]   : a list of Unicode code points ([N]);
    - [bytes] : a list of octets ([N], each below 256);
    - [Set[str]] : a [gset str];
    - [print], [requests.get], [time.sleep] : events appended to a trace,
      threaded through a writer monad;
    - exceptions : [option].  Inside the library models [None] is the
      exception, caught where the script has its [try]/[except].  An
      exception of [requests.get] that is no [RequestException] is not
      caught by the fetcher: it leaves the iteration of the loop and is
      caught by the handler around the loop.  A write of a string without a
      UTF-8 encoding raises inside [write_sum_file] and is caught there.

    Taken as given: standard output accepts every line printed; once the
    output file is open, a write fails only for want of an encoding; the
    run is not interrupted from outside.  *)

From Stdlib Require Import NArith String Ascii List.
From stdpp Require Import base list gmap sorting.
Import ListNotations.
Local Open Scope N_scope.

(** ** Python strings *)

Definition char := N.
Definition str := list char.
Definition bytes := list N.

(** Line feed, comma, the base64 pad. *)
Definition LF : char := 10.
Definition COMMA : char := 44.
Definition BASE64_PAD : char := 61.

(** A Python string literal.  The two characters backslash, [n] stand for a
    line feed, as in the Python source. *)
Fixpoint lit_chars (l : list ascii) : str :=
  match l with
  | [] => []
  | a :: l' =>
      match l' with
      | b :: l'' =>
          if (N_of_ascii a =? 92) && (N_of_ascii b =? 110)
          then LF :: lit_chars l''
          else N_of_ascii a :: lit_chars l'
      | [] => [N_of_ascii a]
      end
  end.

Definition lit (s : string) : str := lit_chars (list_ascii_of_string s).

(** [s == t] on strings. *)
Definition str_eqb (s t : str) : bool := bool_decide (s = t).

(** Truthiness of a string: [if s:] holds iff [s] is not empty. *)
Definition truthy (s : str) : bool :=
  match s with [] => false | _ :: _ => true end.

(** [str.isspace] on one character: the code points CPython's
    [_PyUnicode_IsWhitespace] accepts. *)
Definition isspace (c : char) : bool :=
  ((9 <=? c) && (c <=? 13)) || ((28 <=? c) && (c <=? 32))
  || (c =? 133) || (c =? 160) || (c =? 5760)
  || ((8192 <=? c) && (c <=? 8202))
  || (c =? 8232) || (c =? 8233) || (c =? 8239) || (c =? 8287) || (c =? 12288).

(** [s.lstrip()], [s.rstrip()], [s.strip()]. *)
Fixpoint lstrip (s : str) : str :=
  match s with
  | [] => []
  | c :: s' => if isspace c then lstrip s' else s
  end.

Definition rstrip (s : str) : str := rev (lstrip (rev s)).

Definition strip (s : str) : str := rstrip (lstrip s).

(** [s.split(sep)] for a one-character separator: never the empty list. *)
Fixpoint split (sep : char) (s : str) : list str :=
  match s with
  | [] => [[]]
  | c :: s' =>
      if c =? sep then [] :: split sep s'
      else match split sep s' with
           | l :: ls => (c :: l) :: ls
           | [] => [[c]]
           end
  end.

(** [s.startswith(p)] and [s.startswith((p1, ..., pn))]. *)
Fixpoint startswith (s p : str) : bool :=
  match p, s with
  | [], _ => true
  | _ :: _, [] => false
  | a :: p', c :: s' => (c =? a) && startswith s' p'
  end.

Definition startswith_any (s : str) (ps : list str) : bool :=
  existsb (startswith s) ps.

(** The tuple of scheme prefixes of [process_subscription_file]. *)
Definition SCHEMES : list str :=
  [lit "vmess://"; lit "vless://"; lit "ss://"; lit "trojan://";
   lit "hysteria2://"].

(** The condition of the innermost [if] of [process_subscription_file]:
    [config and config.startswith((...))]. *)
Definition keep_config (config : str) : bool :=
  truthy config && startswith_any config SCHEMES.

(** The list comprehension
    [[line.strip() for line in text.split('\n') if line.strip()]]. *)
Definition stripped_lines (text : str) : list str :=
  flat_map (fun line => if truthy (strip line) then [strip line] else [])
           (split LF text).

(** ** Library models: [base64] and the [utf-8] codec

    [base64.b64encode] and [base64.b64decode] belong to Python's standard
    library, not to the script; they are modelled after CPython 3.11-3.13
    ([Lib/base64.py], [Modules/binascii.c]), with [validate=False]. *)

(** [table_b2a_base64]: the alphabet of RFC 4648. *)
Definition table_b2a_base64 : str :=
  lit "ABCDEFGHIJKLMNOPQRSTUVWXYZabcdefghijklmnopqrstuvwxyz0123456789+/".

Definition b2a (v : N) : char := nth (N.to_nat v) table_b2a_base64 0.

(** [table_a2b_base64]: the value of an alphabet character, [None] for any
    other character. *)
Definition a2b (c : char) : option N :=
  if (65 <=? c) && (c <=? 90) then Some (c - 65)
  else if (97 <=? c) && (c <=? 122) then Some (c - 71)
  else if (48 <=? c) && (c <=? 57) then Some (c + 4)
  else if c =? 43 then Some 62
  else if c =? 47 then Some 63
  else None.

(** [binascii.b2a_base64(data, newline=False)]: three octets give four
    characters, a last group of one or two octets is padded with [=]. *)
Fixpoint b2a_base64 (data : bytes) : bytes :=
  match data with
  | [] => []
  | [x] =>
      [b2a (N.shiftr x 2); b2a (N.shiftl (N.land x 3) 4);
       BASE64_PAD; BASE64_PAD]
  | [x; y] =>
      [b2a (N.shiftr x 2);
       b2a (N.lor (N.shiftl (N.land x 3) 4) (N.shiftr y 4));
       b2a (N.shiftl (N.land y 15) 2); BASE64_PAD]
  | x :: y :: z :: data' =>
      b2a (N.shiftr x 2)
      :: b2a (N.lor (N.shiftl (N.land x 3) 4) (N.shiftr y 4))
      :: b2a (N.lor (N.shiftl (N.land y 15) 2) (N.shiftr z 6))
      :: b2a (N.land z 63)
      :: b2a_base64 data'
  end.

Definition b64encode (data : bytes) : bytes := b2a_base64 data.

(** The loop of [binascii.a2b_base64] with [strict_mode] off.  [quad_pos] is
    the position in the current group of four characters, [leftchar] the
    bits not yet written, [pads] the run of [=] seen.  A character outside
    the alphabet is skipped; a pad that completes a group ends the decoding
    ([goto done]) whatever follows; input that ends inside a group is an
    error ([None]). *)
Fixpoint a2b_base64_loop (quad_pos leftchar pads : N) (ascii_data : bytes)
  : option bytes :=
  match ascii_data with
  | [] => if quad_pos =? 0 then Some [] else None
  | this_ch :: rest =>
      if this_ch =? BASE64_PAD then
        if 2 <=? quad_pos then
          if 4 <=? quad_pos + (pads + 1) then Some []
          else a2b_base64_loop quad_pos leftchar (pads + 1) rest
        else a2b_base64_loop quad_pos leftchar pads rest
      else
        match a2b this_ch with
        | None => a2b_base64_loop quad_pos leftchar pads rest
        | Some v =>
            if quad_pos =? 0 then a2b_base64_loop 1 v 0 rest
            else if quad_pos =? 1 then
              cons (N.lor (N.shiftl leftchar 2) (N.shiftr v 4))
                <$> a2b_base64_loop 2 (N.land v 15) 0 rest
            else if quad_pos =? 2 then
              cons (N.lor (N.shiftl leftchar 4) (N.shiftr v 2))
                <$> a2b_base64_loop 3 (N.land v 3) 0 rest
            else
              cons (N.lor (N.shiftl leftchar 6) v)
                <$> a2b_base64_loop 0 0 0 rest
        end
  end.

Definition a2b_base64 (ascii_data : bytes) : option bytes :=
  a2b_base64_loop 0 0 0 ascii_data.

(** [s.encode('ascii')], as [base64._bytes_from_decode_data] does for a
    [str] argument: an error on a code point above 127. *)
Definition encode_ascii (s : str) : option bytes :=
  if forallb (fun c => c <? 128) s then Some s else None.

(** [base64.b64decode(s)] for a [str] argument; [None] is an exception
    ([ValueError] or [binascii.Error]). *)
Definition b64decode (s : str) : option bytes :=
  encode_ascii s ≫= a2b_base64.

(** Is [b] a continuation octet, [0x80..0xBF]? *)
Definition is_cont (b : N) : bool := (128 <=? b) && (b <=? 191).

Definition in_range (lo hi b : N) : bool := (lo <=? b) && (b <=? hi).

(** [data.decode('utf-8')], strict: [None] ([UnicodeDecodeError]) on a
    truncated or overlong sequence, a surrogate, or a code point above
    [0x10FFFF]. *)
Fixpoint utf8_decode (data : bytes) : option str :=
  match data with
  | [] => Some []
  | b0 :: r0 =>
      if b0 <? 128 then cons b0 <$> utf8_decode r0
      else if in_range 194 223 b0 then
        match r0 with
        | b1 :: r1 =>
            if is_cont b1
            then cons (N.lor (N.shiftl (N.land b0 31) 6) (N.land b1 63))
                   <$> utf8_decode r1
            else None
        | _ => None
        end
      else if in_range 224 239 b0 then
        match r0 with
        | b1 :: b2 :: r2 =>
            if in_range (if b0 =? 224 then 160 else 128)
                        (if b0 =? 237 then 159 else 191) b1
               && is_cont b2
            then cons (N.lor (N.shiftl (N.land b0 15) 12)
                         (N.lor (N.shiftl (N.land b1 63) 6) (N.land b2 63)))
                   <$> utf8_decode r2
            else None
        | _ => None
        end
      else if in_range 240 244 b0 then
        match r0 with
        | b1 :: b2 :: b3 :: r3 =>
            if in_range (if b0 =? 240 then 144 else 128)
                        (if b0 =? 244 then 143 else 191) b1
               && is_cont b2 && is_cont b3
            then cons (N.lor (N.shiftl (N.land b0 7) 18)
                         (N.lor (N.shiftl (N.land b1 63) 12)
                            (N.lor (N.shiftl (N.land b2 63) 6)
                               (N.land b3 63))))
                   <$> utf8_decode r3
            else None
        | _ => None
        end
      else None
  end.

(** ** Effects: what the script prints, fetches and writes *)

(** The exceptions of [requests.exceptions.RequestException] that
    [requests.get] and [raise_for_status] raise. *)
Inductive RequestException :=
  | ConnectionError
  | Timeout
  | HTTPError (status_code : N).

(** What [requests.get(url, ...)] does: it raises a [RequestException], it
    raises some other exception (for a URL that cannot be parsed, say, the
    [LocationParseError] of [urllib3] passes through [requests] as it is),
    or it returns a response with a status code and a body text; [text] is
    the body as [response.text] decodes it. *)
Inductive get_result :=
  | Raises (e : RequestException)
  | RaisesOther
  | Response (status_code : N) (text : str).

(** The state of the subscription file when the script starts; [text] is
    what [file.read()] returns. *)
Inductive file_state :=
  | NotFound
  | Unreadable
  | Contents (text : str).

(** The environment of one run: the file [subs.txt], the network, and
    whether [open(output_file, 'w')] succeeds. *)
Record world := World {
  subs_txt : file_state;
  get : str -> get_result;
  sum_txt_writable : bool
}.

(** One observable effect: a line printed (the f-string it comes from is
    given with each constructor), a request sent, or a pause. *)
Inductive event :=
  | HttpGet (url : str)
      (* requests.get(url, headers=headers, timeout=timeout) *)
  | ErrorFetching (url : str) (e : RequestException)
      (* Error fetching {url}: {e} *)
  | ErrorDecoding
      (* Error decoding base64 content: {e} *)
  | FileNotFound
      (* Error: {sub_file} not found! *)
  | FoundUrls (n : nat)
      (* Found {len(urls)} subscription URLs to process... *)
  | Processing (i n : nat) (url : str)
      (* Processing {i}/{len(urls)}: {url} *)
  | FoundConfigurations (n : nat)
      (*   Found {len(configs)} configurations *)
  | FailedToFetch (url : str)
      (*   Failed to fetch content from {url} *)
  | Sleep (seconds : nat)
      (* time.sleep(1) *)
  | ErrorProcessing
      (* Error processing {sub_file}: {e} *)
  | SuccessfullyWrote (n : nat)
      (* Successfully wrote {len(configs)} configurations to {output_file} *)
  | ErrorWriting
      (* Error writing to {output_file}: {e} *)
  | Banner
      (* V2Ray Subscription Processor, then a rule of forty = *)
  | ProcessingComplete (n : nat)
      (* Processing complete! Found {len(all_configs)} unique configurations. *)
  | NoConfigurationsFound.
      (* No configurations found! *)

(** A computation that returns a value and appends to the trace. *)
Definition M (A : Type) : Type := (A * list event)%type.

#[global] Instance M_ret : MRet M := fun A a => (a, []).
#[global] Instance M_bind : MBind M := fun A B k m =>
  let r := k (fst m) in (fst r, snd m ++ snd r).

Definition emit (e : event) : M unit := (tt, [e]).

(** ** The functions of the script *)

(** [is_base64_encoded]: decode, encode again, compare; any exception gives
    [False]. *)
Definition is_base64_encoded (text : str) : bool :=
  match b64decode text with
  | Some decoded =>
      match utf8_decode (b64encode decoded) with
      | Some encoded => str_eqb encoded text
      | None => false
      end
  | None => false
  end.

(** [response.raise_for_status()]: an [HTTPError] for a status from 400 to
    599, nothing otherwise (the [requests] library). *)
Definition raise_for_status (status_code : N) : option RequestException :=
  if (400 <=? status_code) && (status_code <? 600)
  then Some (HTTPError status_code) else None.

(** [fetch_subscription_content]: the body text, or the empty string after
    a [RequestException].  Its [except] catches nothing else: [None] is an
    exception of another class leaving the function. *)
Definition fetch_subscription_content (w : world) (url : str)
  : M (option str) :=
  emit (HttpGet url);;
  match get w url with
  | Raises e => emit (ErrorFetching url e);; mret (Some [])
  | RaisesOther => mret None
  | Response status_code text =>
      match raise_for_status status_code with
      | Some e => emit (ErrorFetching url e);; mret (Some [])
      | None => mret (Some text)
      end
  end.

(** [decode_base64_configs]: the stripped non-empty lines of the decoded
    text; the empty list after any exception. *)
Definition decode_base64_configs (content : str) : M (list str) :=
  match b64decode content ≫= utf8_decode with
  | Some decoded => mret (stripped_lines decoded)
  | None => emit ErrorDecoding;; mret []
  end.

(** [extract_configs_from_content]. *)
Definition extract_configs_from_content (content : str) : M (list str) :=
  if is_base64_encoded (strip content)
  then decode_base64_configs content
  else mret (stripped_lines content).

(** The URLs of the subscription file: the part of
    [process_subscription_file] between [file.read()] and the first
    [print]. *)
Definition read_urls (text : str) : list str :=
  let content := strip text in
  flat_map
    (fun line =>
       let line := strip line in
       if truthy line
       then flat_map (fun url => if truthy (strip url) then [strip url] else [])
                     (split COMMA line)
       else [])
    (split LF content).

(** The innermost loop: [for config in configs: if ...: all_configs.add]. *)
Definition add_configs (configs : list str) (all_configs : gset str)
  : gset str :=
  foldl (fun acc config => if keep_config config then acc ∪ {[config]} else acc)
        all_configs configs.

(** One iteration of [for i, url in enumerate(urls, 1)]; [None] is an
    exception leaving the iteration, which happens before anything is added
    and before the pause. *)
Definition process_url (w : world) (n i : nat) (url : str)
    (all_configs : gset str) : M (option (gset str)) :=
  emit (Processing i n url);;
  fetched ← fetch_subscription_content w url;
  match fetched with
  | None => mret None
  | Some content =>
      all_configs ←
        (if truthy content then
           configs ← extract_configs_from_content content;
           emit (FoundConfigurations (length configs));;
           mret (add_configs configs all_configs)
         else
           emit (FailedToFetch url);; mret all_configs);
      emit (Sleep 1);;
      mret (Some all_configs)
  end.

(** The loop over the URLs, from index [i], inside the [try] of line 75: an
    exception that leaves an iteration ends the loop, the handler of line
    112 prints its line, and line 115 returns the set as it is then. *)
Fixpoint process_urls (w : world) (n i : nat) (urls : list str)
    (all_configs : gset str) : M (gset str) :=
  match urls with
  | [] => mret all_configs
  | url :: urls' =>
      step ← process_url w n i url all_configs;
      match step with
      | None => emit ErrorProcessing;; mret all_configs
      | Some all_configs => process_urls w n (S i) urls' all_configs
      end
  end.

(** [process_subscription_file]. *)
Definition process_subscription_file (w : world) : M (gset str) :=
  match subs_txt w with
  | NotFound => emit FileNotFound;; mret ∅
  | Unreadable => emit ErrorProcessing;; mret ∅
  | Contents text =>
      let urls := read_urls text in
      emit (FoundUrls (length urls));;
      process_urls w (length urls) 1%nat urls ∅
  end.

(** Python's order on [str]: lexicographic on the code points. *)
Fixpoint str_leb (s t : str) : bool :=
  match s, t with
  | [], _ => true
  | _ :: _, [] => false
  | a :: s', b :: t' =>
      if a <? b then true else if a =? b then str_leb s' t' else false
  end.

Definition str_le (s t : str) : Prop := str_leb s t = true.

#[global] Instance str_le_dec s t : Decision (str_le s t).
Proof. unfold str_le. apply _. Defined.

(** [sorted(configs)] on a set of strings. *)
Definition sorted (configs : gset str) : list str :=
  merge_sort str_le (elements configs).

(** The text of the lines [lines], each followed by a line feed. *)
Definition file_text (lines : list str) : str :=
  flat_map (fun config => config ++ [LF]) lines.

(** Can [s] be encoded as UTF-8?  Not if it holds a surrogate, a code point
    from D800 to DFFF. *)
Definition encodable (s : str) : bool :=
  forallb (fun c => negb ((55296 <=? c) && (c <=? 57343))) s.

(** The loop of [write_sum_file]: [file.write(config + '\n')] for every
    entry in turn.  The file is opened with [encoding='utf-8'], so a write
    of a string that cannot be encoded raises; what was written before
    stays in the file.  The result is whether every write succeeded, and
    the text written. *)
Fixpoint write_lines (lines : list str) : bool * str :=
  match lines with
  | [] => (true, [])
  | config :: lines' =>
      if encodable config
      then let r := write_lines lines' in (fst r, (config ++ [LF]) ++ snd r)
      else (false, [])
  end.

(** [write_sum_file]: the content of the output file, [None] when it could
    not be opened.  Any exception is caught and reported; nothing is
    raised. *)
Definition write_sum_file (w : world) (configs : gset str)
  : M (option str) :=
  if sum_txt_writable w then
    let r := write_lines (sorted configs) in
    (if fst r then emit (SuccessfullyWrote (size configs))
     else emit ErrorWriting);;
    mret (Some (snd r))
  else
    emit ErrorWriting;; mret None.

(** The result of a run: the content of [sum.txt] if it was written, and the
    exit status. *)
Record outcome := Outcome {
  sum_txt : option str;
  exit_status : nat
}.

(** [main]. *)
Definition main (w : world) : M outcome :=
  emit Banner;;
  all_configs ← process_subscription_file w;
  if bool_decide (all_configs = ∅) then
    emit NoConfigurationsFound;;
    mret (Outcome None 1)
  else
    file ← write_sum_file w all_configs;
    emit (ProcessingComplete (size all_configs));;
    mret (Outcome file 0).

(** ** The scenario of the specification *)

Definition scenario_get (url : str) : get_result :=
  if str_eqb url (lit "http://a")
  then Response 200 (lit "vless://x\nfoo\nvmess://y\n")
  else if str_eqb url (lit "http://b")
  then Response 200 (b64encode (lit "vmess://y\nss://z\n"))
  else Raises ConnectionError.

Definition scenario : world :=
  World (Contents (lit "http://a,http://b")) scenario_get true.

(** ** The source-list parser as the specification words it *)


(** The candidate entries of a text as the specification words them: the
    lines, trimmed, without the empty ones. *)
Definition spec_candidate_entries (text : str) : list str :=
  filter (fun l => truthy l = true) (map strip (split LF text)).

(** ** Predicates used in the statements *)

(** Octets. *)
Definition is_bytes (data : bytes) : Prop := Forall (fun b => b < 256) data.

(** A string made of white space only. *)
Definition blank (s : str) : Prop := Forall (fun c => isspace c = true) s.

(** The fetch of [url] fails with the exception [e]: [requests.get] raises
    it, or [raise_for_status] does. *)
Definition fetch_fails (w : world) (url : str) (e : RequestException) : Prop :=
  get w url = Raises e
  \/ exists status_code text,
       get w url = Response status_code text
       /\ raise_for_status status_code = Some e.


(** Does [requests.get] raise an exception that is no [RequestException]? *)
Definition raises_other (r : get_result) : bool :=
  match r with RaisesOther => true | _ => false end.

(** The URLs whose iteration is completed: those before the first URL whose
    fetch raises outside [RequestException]. *)
Fixpoint processed (net : str -> get_result) (urls : list str) : list str :=
  match urls with
  | [] => []
  | url :: urls' =>
      if raises_other (net url) then [] else url :: processed net urls'
  end.


(** No fetch of [urls] raises outside [RequestException]. *)
Definition no_abort (net : str -> get_result) (urls : list str) : Prop :=
  Forall (fun url => raises_other (net url) = false) urls.

(** The lines that reach the file: those before the first one that cannot
    be encoded. *)
Fixpoint written (lines : list str) : list str :=
  match lines with
  | [] => []
  | config :: lines' =>
      if encodable config then config :: written lines' else []
  end.

(** How often [e] is among [lines]. *)
Definition occurrences (e : str) (lines : list str) : nat :=
  length (filter (fun line => line = e) lines).

(** ** Auxiliary definitions *)

(** The numbers below [n], for checks that run over a whole range. *)
Definition below (n : nat) : list N := map N.of_nat (seq 0 n).

(** The four six-bit values [b2a_base64] makes of the octets [x], [y], [z]. *)
Definition sextet1 (x : N) : N := N.shiftr x 2.
Definition sextet2 (x y : N) : N :=
  N.lor (N.shiftl (N.land x 3) 4) (N.shiftr y 4).
Definition sextet3 (y z : N) : N :=
  N.lor (N.shiftl (N.land y 15) 2) (N.shiftr z 6).
Definition sextet4 (z : N) : N := N.land z 63.

(** What is computed from the stripped line only. *)
Definition per_line {A} (h : str -> list A) (line : str) : list A :=
  h (strip line).

(** The fragments of one line. *)
Definition fragments (line : str) : list str :=
  flat_map (fun url => if truthy (strip url) then [strip url] else [])
           (split COMMA line).

(** The entries one source adds to the empty set (none when its iteration
    is left by an exception). *)
Definition contribution (w : world) (url : str) : gset str :=
  default ∅ (fst (process_url w 0 0 url ∅)).

(** The result of [main] as a function of the aggregate set. *)
Definition outcome_of (writable : bool) (all_configs : gset str) : outcome :=
  if bool_decide (all_configs = ∅) then Outcome None 1
  else Outcome (if writable
                then Some (file_text (written (sorted all_configs)))
                else None) 0.

(** ** Further runs used as examples *)

(** A server that answers 300 (Multiple Choices) with a body. *)
Definition multiple_choices : world :=
  World (Contents (lit "http://a"))
        (fun _ => Response 300 (lit "vmess://x")) true.

(** One source times out; the body of another is the base64 encoding of the
    single octet 255, which is not UTF-8. *)
Definition faulty_get (url : str) : get_result :=
  if str_eqb url (lit "http://a") then Raises Timeout
  else Response 200 (lit "/w==").

Definition faulty : world :=
  World (Contents (lit "http://a,http://b")) faulty_get true.

(** A server that answers 200 with an empty body, and one that cannot be
    reached. *)
Definition empty_answer : world :=
  World (Contents (lit "http://a")) (fun _ => Response 200 []) true.

Definition unreachable : world :=
  World (Contents (lit "http://a")) (fun _ => Raises ConnectionError) true.

(** A URL whose host is one label of 64 characters: it cannot be parsed, and
    [requests.get] raises an exception that is no [RequestException]. *)
Definition bad_url : str :=
  lit "http://aaaaaaaaaaaaaaaaaaaaaaaaaaaaaaaaaaaaaaaaaaaaaaaaaaaaaaaaaaaaaaaa".

(** Two good sources and the URL that cannot be parsed. *)
Definition one_bad_get (url : str) : get_result :=
  if str_eqb url (lit "http://a") then Response 200 (lit "vmess://a")
  else if str_eqb url (lit "http://b") then Response 200 (lit "ss://b")
  else RaisesOther.

Definition bad_between_ab : world :=
  World (Contents (lit "http://a," ++ bad_url ++ lit ",http://b"))
        one_bad_get true.

Definition bad_between_ba : world :=
  World (Contents (lit "http://b," ++ bad_url ++ lit ",http://a"))
        one_bad_get true.

(** The URL that cannot be parsed, twice. *)
Definition bad_twice : world :=
  World (Contents (bad_url ++ COMMA :: bad_url)) one_bad_get true.

(** An entry with a lone surrogate, which has no UTF-8 encoding. *)
Definition surrogate_entry : str := lit "vmess://" ++ [55296].

(** A source whose body holds [ss://z] and the entry with the surrogate. *)
Definition surrogate_last : world :=
  World (Contents (lit "http://a"))
        (fun _ => Response 200 (lit "ss://z\n" ++ surrogate_entry ++ [LF]))
        true.

(** Two sources with the same body: an entry with a lone surrogate that
    sorts first, and [vmess://y]. *)
Definition surrogate_first : world :=
  World (Contents (lit "http://a,http://b"))
        (fun _ => Response 200
                    (lit "ss://" ++ [55296] ++ lit "\nvmess://y\n"))
        true.

(** ** Definitions for the further properties *)

(** The announcements, the requests and the pauses of a trace, in order. *)
Definition schedule (trace : list event) : list event :=
  flat_map (fun ev => match ev with
                      | Processing _ _ _ | HttpGet _ | Sleep _ => [ev]
                      | _ => []
                      end) trace.

(** One announcement [Processing i/n], one request and one pause of a
    second per URL, counting from [i]; at a URL whose fetch raises outside
    [RequestException] the pause is left out and nothing follows. *)
Fixpoint announcements (net : str -> get_result) (n i : nat)
    (urls : list str) : list event :=
  match urls with
  | [] => []
  | url :: urls' =>
      Processing i n url :: HttpGet url
      :: (if raises_other (net url) then []
          else Sleep 1 :: announcements net n (S i) urls')
  end.

(** A string as the extractor and the parser deliver them: not empty, no
    white space at either end, no line feed. *)
Definition trimmed_line (e : str) : Prop :=
  e <> [] /\ strip e = e /\ LF ∉ e.

(** A URL as the parser delivers it: a trimmed line without a comma. *)
Definition url_token (u : str) : Prop := trimmed_line u /\ COMMA ∉ u.

(** [urls] written on one line, a comma after each. *)
Definition comma_joined (urls : list str) : str :=
  flat_map (fun u => u ++ [COMMA]) urls.

(** The colon. *)
Definition COLON : char := 58.

(** The states the decoding loop goes through: at position 1, 2, 3 of a
    group the bits kept in [leftchar] are 6, 4, 2. *)
Definition group_state (quad_pos leftchar : N) : Prop :=
  quad_pos = 0
  \/ (quad_pos = 1 /\ leftchar < 64)
  \/ (quad_pos = 2 /\ leftchar < 16)
  \/ (quad_pos = 3 /\ leftchar < 4).

(** The characters the decoder skips in a [str] argument: ASCII, not the
    pad, not of the alphabet. *)
Definition skipped (c : char) : bool :=
  (c <? 128) && negb (c =? BASE64_PAD)
  && match a2b c with None => true | Some _ => false end.

(** * Theorems *)

(** ** The writer monad *)

Lemma fst_bind {A B} (m : M A) (k : A -> M B) :
  fst (m ≫= k) = fst (k (fst m)).
Proof. reflexivity. Qed.

Lemma fst_ret {A} (a : A) : fst (mret a : M A) = a.
Proof. reflexivity. Qed.

Lemma snd_ret {A} (a : A) : snd (mret a : M A) = [].
Proof. reflexivity. Qed.

Lemma snd_bind {A B} (m : M A) (k : A -> M B) :
  snd (m ≫= k) = snd m ++ snd (k (fst m)).
Proof. reflexivity. Qed.

(** ** Exhaustive checks over small ranges *)

Lemma forallb_below (P : N -> bool) (n : nat) :
  forallb P (below n) = true -> forall v, v < N.of_nat n -> P v = true.
Proof.
  intros H v Hv. rewrite forallb_forall in H. apply H.
  unfold below. apply in_map_iff. exists (N.to_nat v). split.
  - apply N2Nat.id.
  - apply in_seq. lia.
Qed.

Lemma forallb2_below (P : N -> N -> bool) (n m : nat) :
  forallb (fun x => forallb (P x) (below m)) (below n) = true ->
  forall x y, x < N.of_nat n -> y < N.of_nat m -> P x y = true.
Proof.
  intros H x y Hx Hy.
  apply (forallb_below (P x) m); [|exact Hy].
  apply (forallb_below (fun x => forallb (P x) (below m)) n H x Hx).
Qed.

(** [exhaust1 P v H] and [exhaust2 P x y Hx Hy] prove [P v = true] and
    [P x y = true] by running [P] on every argument of the range. *)
Ltac exhaust1 P n v H :=
  let E := fresh "E" in
  assert (E : forallb P (below n) = true) by (vm_compute; reflexivity);
  exact (forallb_below P n E v H).

Ltac exhaust2 P x y Hx Hy :=
  let E := fresh "E" in
  assert (E : forallb (fun a => forallb (P a) (below 256)) (below 256) = true)
    by (vm_compute; reflexivity);
  exact (forallb2_below P 256 256 E x y Hx Hy).

(** ** Base64: the alphabet *)

Lemma b2a_outside v : 64 <= v -> b2a v = 0.
Proof.
  intros H. unfold b2a. apply nth_overflow.
  change (length table_b2a_base64) with 64%nat. lia.
Qed.

Lemma a2b_b2a v : v < 64 -> a2b (b2a v) = Some v.
Proof.
  intros H.
  assert (E : bool_decide (a2b (b2a v) = Some v) = true)
    by exhaust1 (fun v => bool_decide (a2b (b2a v) = Some v)) 64%nat v H.
  by apply bool_decide_eq_true in E.
Qed.

Lemma b2a_not_pad v : (b2a v =? BASE64_PAD) = false.
Proof.
  destruct (N.lt_ge_cases v 64) as [H|H].
  - assert (E : negb (b2a v =? BASE64_PAD) = true)
      by exhaust1 (fun v => negb (b2a v =? BASE64_PAD)) 64%nat v H.
    by apply negb_true_iff in E.
  - by rewrite b2a_outside.
Qed.

Lemma b2a_not_space v : isspace (b2a v) = false.
Proof.
  destruct (N.lt_ge_cases v 64) as [H|H].
  - assert (E : negb (isspace (b2a v)) = true)
      by exhaust1 (fun v => negb (isspace (b2a v))) 64%nat v H.
    by apply negb_true_iff in E.
  - by rewrite b2a_outside.
Qed.

Lemma b2a_ascii v : (b2a v <? 128) = true.
Proof.
  destruct (N.lt_ge_cases v 64) as [H|H].
  - exhaust1 (fun v => b2a v <? 128) 64%nat v H.
  - by rewrite b2a_outside.
Qed.

(** ** Base64: the arithmetic of one group *)

Section group.
Variables x y z : N.
Hypothesis Hx : x < 256.
Hypothesis Hy : y < 256.
Hypothesis Hz : z < 256.

Lemma sextet1_lt : sextet1 x < 64.
Proof.
  apply N.ltb_lt. exhaust1 (fun x => sextet1 x <? 64) 256%nat x Hx.
Qed.

Lemma sextet2_lt : sextet2 x y < 64.
Proof.
  apply N.ltb_lt. exhaust2 (fun x y => sextet2 x y <? 64) x y Hx Hy.
Qed.

Lemma sextet3_lt : sextet3 y z < 64.
Proof.
  apply N.ltb_lt. exhaust2 (fun y z => sextet3 y z <? 64) y z Hy Hz.
Qed.

Lemma sextet4_lt : sextet4 z < 64.
Proof.
  apply N.ltb_lt. exhaust1 (fun z => sextet4 z <? 64) 256%nat z Hz.
Qed.

(** What the decoder writes after the second, third and fourth character
    of a group. *)
Lemma octet1 :
  N.lor (N.shiftl (sextet1 x) 2) (N.shiftr (sextet2 x y) 4) = x.
Proof.
  apply N.eqb_eq.
  exhaust2 (fun x y =>
    N.lor (N.shiftl (sextet1 x) 2) (N.shiftr (sextet2 x y) 4) =? x)
    x y Hx Hy.
Qed.

Lemma octet2 :
  N.lor (N.shiftl (N.land (sextet2 x y) 15) 4) (N.shiftr (sextet3 y z) 2)
  = y.
Proof.
  assert (E : N.land (sextet2 x y) 15 = N.shiftr y 4).
  { apply N.eqb_eq.
    exhaust2 (fun x y => N.land (sextet2 x y) 15 =? N.shiftr y 4)
      x y Hx Hy. }
  rewrite E. apply N.eqb_eq.
  exhaust2 (fun y z =>
    N.lor (N.shiftl (N.shiftr y 4) 4) (N.shiftr (sextet3 y z) 2) =? y)
    y z Hy Hz.
Qed.

Lemma octet3 :
  N.lor (N.shiftl (N.land (sextet3 y z) 3) 6) (sextet4 z) = z.
Proof.
  assert (E : N.land (sextet3 y z) 3 = N.shiftr z 6).
  { apply N.eqb_eq.
    exhaust2 (fun y z => N.land (sextet3 y z) 3 =? N.shiftr z 6)
      y z Hy Hz. }
  rewrite E. apply N.eqb_eq.
  exhaust1 (fun z => N.lor (N.shiftl (N.shiftr z 6) 6) (sextet4 z) =? z)
    256%nat z Hz.
Qed.
End group.

(** ** Base64: decoding an encoding *)

Lemma list_ind3 {A} (P : list A -> Prop) :
  P [] -> (forall x, P [x]) -> (forall x y, P [x; y]) ->
  (forall x y z l, P l -> P (x :: y :: z :: l)) ->
  forall l, P l.
Proof.
  intros H0 H1 H2 H3. fix IH 1.
  intros [|x [|y [|z l]]]; [exact H0 | apply H1 | apply H2 | apply H3, IH].
Qed.

(** One step of the decoder on an alphabet character, by position. *)
Lemma loop_first l p v rest :
  v < 64 ->
  a2b_base64_loop 0 l p (b2a v :: rest) = a2b_base64_loop 1 v 0 rest.
Proof.
  intros H. cbn [a2b_base64_loop]. by rewrite b2a_not_pad, a2b_b2a.
Qed.

Lemma loop_second l p v rest :
  v < 64 ->
  a2b_base64_loop 1 l p (b2a v :: rest)
  = cons (N.lor (N.shiftl l 2) (N.shiftr v 4))
      <$> a2b_base64_loop 2 (N.land v 15) 0 rest.
Proof.
  intros H. cbn [a2b_base64_loop]. by rewrite b2a_not_pad, a2b_b2a.
Qed.

Lemma loop_third l p v rest :
  v < 64 ->
  a2b_base64_loop 2 l p (b2a v :: rest)
  = cons (N.lor (N.shiftl l 4) (N.shiftr v 2))
      <$> a2b_base64_loop 3 (N.land v 3) 0 rest.
Proof.
  intros H. cbn [a2b_base64_loop]. by rewrite b2a_not_pad, a2b_b2a.
Qed.

Lemma loop_fourth l p v rest :
  v < 64 ->
  a2b_base64_loop 3 l p (b2a v :: rest)
  = cons (N.lor (N.shiftl l 6) v) <$> a2b_base64_loop 0 0 0 rest.
Proof.
  intros H. cbn [a2b_base64_loop]. by rewrite b2a_not_pad, a2b_b2a.
Qed.

Lemma sextet2_0 x : N.shiftl (N.land x 3) 4 = sextet2 x 0.
Proof. unfold sextet2. by rewrite N.shiftr_0_l, N.lor_0_r. Qed.

Lemma sextet3_0 y : N.shiftl (N.land y 15) 2 = sextet3 y 0.
Proof. unfold sextet3. by rewrite N.shiftr_0_l, N.lor_0_r. Qed.

Lemma b2a_base64_group x y z data :
  b2a_base64 (x :: y :: z :: data)
  = b2a (sextet1 x) :: b2a (sextet2 x y) :: b2a (sextet3 y z)
    :: b2a (sextet4 z) :: b2a_base64 data.
Proof. reflexivity. Qed.

Lemma b2a_base64_one x :
  b2a_base64 [x]
  = [b2a (sextet1 x); b2a (sextet2 x 0); BASE64_PAD; BASE64_PAD].
Proof. cbn [b2a_base64]. by rewrite sextet2_0. Qed.

Lemma b2a_base64_two x y :
  b2a_base64 [x; y]
  = [b2a (sextet1 x); b2a (sextet2 x y); b2a (sextet3 y 0); BASE64_PAD].
Proof. cbn [b2a_base64]. by rewrite sextet3_0. Qed.

(** The decoder inverts the encoder on every sequence of octets. *)
Lemma a2b_b2a_base64 data :
  is_bytes data -> a2b_base64 (b2a_base64 data) = Some data.
Proof.
  unfold a2b_base64, is_bytes.
  induction data as [|x|x y|x y z data IH] using list_ind3; intros H.
  - reflexivity.
  - apply Forall_cons in H as [Hx _].
    rewrite b2a_base64_one.
    rewrite loop_first by by apply sextet1_lt.
    rewrite loop_second by (apply sextet2_lt; [done|lia]).
    rewrite octet1 by (done || lia). reflexivity.
  - apply Forall_cons in H as [Hx H]. apply Forall_cons in H as [Hy _].
    rewrite b2a_base64_two.
    rewrite loop_first by by apply sextet1_lt.
    rewrite loop_second by by apply sextet2_lt.
    rewrite loop_third by (apply sextet3_lt; [done|lia]).
    rewrite octet1 by done.
    rewrite (octet2 x y 0) by (done || lia). reflexivity.
  - apply Forall_cons in H as [Hx H]. apply Forall_cons in H as [Hy H].
    apply Forall_cons in H as [Hz H].
    rewrite b2a_base64_group.
    rewrite loop_first by by apply sextet1_lt.
    rewrite loop_second by by apply sextet2_lt.
    rewrite loop_third by by apply sextet3_lt.
    rewrite loop_fourth by by apply sextet4_lt.
    rewrite IH by done.
    rewrite octet1, (octet2 x y z), octet3 by done. reflexivity.
Qed.

(** The encoder writes ASCII characters only, none of them white space. *)
Lemma b2a_base64_ascii data :
  forallb (fun c => c <? 128) (b2a_base64 data) = true.
Proof.
  induction data as [|x|x y|x y z data IH] using list_ind3.
  - reflexivity.
  - cbn [b2a_base64 forallb]. by rewrite !b2a_ascii.
  - cbn [b2a_base64 forallb]. by rewrite !b2a_ascii.
  - rewrite b2a_base64_group. cbn [forallb]. by rewrite !b2a_ascii, IH.
Qed.

Lemma b2a_base64_no_space data :
  Forall (fun c => isspace c = false) (b2a_base64 data).
Proof.
  induction data as [|x|x y|x y z data IH] using list_ind3.
  - constructor.
  - cbn [b2a_base64]. repeat constructor; apply b2a_not_space.
  - cbn [b2a_base64]. repeat constructor; apply b2a_not_space.
  - rewrite b2a_base64_group. repeat (constructor; [apply b2a_not_space|]).
    exact IH.
Qed.

Lemma utf8_decode_ascii data :
  forallb (fun c => c <? 128) data = true -> utf8_decode data = Some data.
Proof.
  induction data as [|b data IH]; [done|].
  cbn [forallb utf8_decode]. intros [Hb H]%andb_true_iff.
  by rewrite Hb, IH.
Qed.

Lemma b64decode_b64encode data :
  is_bytes data -> b64decode (b64encode data) = Some data.
Proof.
  intros H. unfold b64decode, b64encode, encode_ascii.
  rewrite b2a_base64_ascii. by apply a2b_b2a_base64.
Qed.

(** ** [strip] *)

Lemma lstrip_no_space s :
  Forall (fun c => isspace c = false) s -> lstrip s = s.
Proof. destruct 1 as [|c s Hc _]; [done|]. cbn. by rewrite Hc. Qed.

Lemma strip_no_space s :
  Forall (fun c => isspace c = false) s -> strip s = s.
Proof.
  intros H. unfold strip, rstrip.
  rewrite (lstrip_no_space s H), lstrip_no_space, rev_involutive; [done|].
  by apply Forall_rev.
Qed.

(** ** The encoding detector *)

Lemma is_base64_encoded_iff text :
  is_base64_encoded text = true
  <-> exists decoded, b64decode text = Some decoded
                      /\ b64encode decoded = text.
Proof.
  unfold is_base64_encoded, str_eqb.
  destruct (b64decode text) as [decoded|].
  - unfold b64encode.
    rewrite (utf8_decode_ascii _ (b2a_base64_ascii decoded)).
    rewrite bool_decide_eq_true. split.
    + intros E. by exists decoded.
    + by intros (d & [= <-] & E).
  - split; [done|]. by intros (d & [=] & _).
Qed.

Lemma is_base64_encoded_b64encode data :
  is_bytes data -> is_base64_encoded (b64encode data) = true.
Proof.
  intros H. apply is_base64_encoded_iff. exists data.
  by rewrite b64decode_b64encode.
Qed.

(** ** [strip] and [split] *)

Lemma lstrip_blank w : blank w -> lstrip w = [].
Proof. induction 1 as [|c w Hc _ IH]; [done|]. cbn. by rewrite Hc. Qed.

Lemma lstrip_blank_app w s : blank w -> lstrip (w ++ s) = lstrip s.
Proof. induction 1 as [|c w Hc _ IH]; [done|]. cbn. by rewrite Hc. Qed.

Lemma lstrip_decompose s : exists w, blank w /\ s = w ++ lstrip s.
Proof.
  induction s as [|c s (w & Hw & E)].
  - exists []. split; [constructor|done].
  - cbn. destruct (isspace c) eqn:Hc.
    + exists (c :: w). split; [by constructor|]. cbn. by rewrite <- E.
    + exists []. split; [constructor|done].
Qed.

Lemma blank_rev w : blank w -> blank (rev w).
Proof. apply Forall_rev. Qed.

Lemma rstrip_app_blank s w : blank w -> rstrip (s ++ w) = rstrip s.
Proof.
  intros Hw. unfold rstrip.
  by rewrite rev_app_distr, lstrip_blank_app by by apply blank_rev.
Qed.

Lemma rstrip_decompose s : exists w, blank w /\ s = rstrip s ++ w.
Proof.
  destruct (lstrip_decompose (rev s)) as (w & Hw & E).
  exists (rev w). split; [by apply blank_rev|].
  unfold rstrip. by rewrite <- rev_app_distr, <- E, rev_involutive.
Qed.

Lemma strip_blank w : blank w -> strip w = [].
Proof. intros Hw. unfold strip. by rewrite lstrip_blank. Qed.

Lemma strip_cons_space c s : isspace c = true -> strip (c :: s) = strip s.
Proof. intros Hc. unfold strip. cbn. by rewrite Hc. Qed.

Lemma strip_app_blank s w : blank w -> strip (s ++ w) = strip s.
Proof.
  intros Hw. induction s as [|c s IH].
  - cbn [app]. by rewrite strip_blank.
  - destruct (isspace c) eqn:Hc.
    + cbn [app]. by rewrite !strip_cons_space.
    + unfold strip. cbn [app lstrip]. rewrite Hc.
      by apply (rstrip_app_blank (c :: s) w).
Qed.

Lemma split_cons sep c s :
  split sep (c :: s)
  = if c =? sep then [] :: split sep s
    else (c :: hd [] (split sep s)) :: tl (split sep s).
Proof.
  cbn [split]. destruct (c =? sep); [done|].
  by destruct (split sep s).
Qed.

Lemma split_not_nil sep s : split sep s <> [].
Proof.
  destruct s as [|c s]; [done|].
  rewrite split_cons. by destruct (c =? sep).
Qed.

Lemma split_hd_tl sep s :
  split sep s = hd [] (split sep s) :: tl (split sep s).
Proof. pose proof (split_not_nil sep s). by destruct (split sep s). Qed.

(** The pieces of [t ++ u]: those of [t], the last of them continued by the
    first piece of [u], then the other pieces of [u]. *)
Lemma split_app sep t u :
  split sep (t ++ u)
  = List.removelast (split sep t)
    ++ (List.last (split sep t) [] ++ hd [] (split sep u))
       :: tl (split sep u).
Proof.
  induction t as [|c t IH].
  - cbn. apply split_hd_tl.
  - cbn [app]. rewrite !split_cons. destruct (c =? sep).
    + rewrite IH. pose proof (split_not_nil sep t).
      by destruct (split sep t).
    + rewrite IH. rewrite (split_hd_tl sep t) at 3 5.
      pose proof (split_not_nil sep t).
      destruct (split sep t) as [|l [|l2 ls]]; done.
Qed.

Lemma blank_split sep w : blank w -> Forall blank (split sep w).
Proof.
  induction 1 as [|c w Hc Hw IH]; [by repeat constructor|].
  rewrite split_cons. destruct (c =? sep).
  - constructor; [constructor|done].
  - rewrite (split_hd_tl sep w) in IH. apply Forall_cons in IH as [? ?].
    constructor; [by constructor|done].
Qed.

(** What is computed line by line from the stripped line only does not see
    white space around the whole text. *)
Section per_line.
Context {A : Type} (h : str -> list A) (sep : char).
Hypothesis h_nil : h [] = [].

Lemma per_line_blank l : blank l -> per_line h l = [].
Proof. intros Hl. unfold per_line. by rewrite strip_blank. Qed.

Lemma per_line_all_blank ls :
  Forall blank ls -> flat_map (per_line h) ls = [].
Proof.
  induction 1 as [|l ls Hl _ IH]; [done|].
  cbn. by rewrite per_line_blank, IH.
Qed.

Lemma per_line_lstrip s :
  flat_map (per_line h) (split sep (lstrip s))
  = flat_map (per_line h) (split sep s).
Proof.
  induction s as [|c s IH]; [done|].
  cbn [lstrip]. destruct (isspace c) eqn:Hc; [|done].
  rewrite IH, split_cons. destruct (c =? sep).
  - cbn. by rewrite per_line_blank by constructor.
  - rewrite (split_hd_tl sep s) at 1. cbn. unfold per_line.
    by rewrite strip_cons_space.
Qed.

Lemma per_line_app_blank t w :
  blank w ->
  flat_map (per_line h) (split sep (t ++ w))
  = flat_map (per_line h) (split sep t).
Proof.
  intros Hw. rewrite split_app.
  pose proof (blank_split sep w Hw) as Hs.
  rewrite (split_hd_tl sep w) in Hs. apply Forall_cons in Hs as [Hh Ht].
  rewrite flat_map_app. cbn [flat_map].
  rewrite (per_line_all_blank _ Ht), app_nil_r.
  unfold per_line at 2. rewrite strip_app_blank by done.
  rewrite (app_removelast_last [] (split_not_nil sep t)) at 3.
  rewrite flat_map_app. cbn. by rewrite app_nil_r.
Qed.

Lemma per_line_strip s :
  flat_map (per_line h) (split sep (strip s))
  = flat_map (per_line h) (split sep s).
Proof.
  unfold strip.
  destruct (rstrip_decompose (lstrip s)) as (w & Hw & E).
  rewrite <- (per_line_lstrip s). rewrite E at 2.
  by rewrite per_line_app_blank.
Qed.
End per_line.

Lemma truthy_true s : truthy s = true <-> s <> [].
Proof. by destruct s. Qed.

(** A comprehension with a condition is a [filter] after a [map]. *)
Lemma comprehension_filter_map {A} (g : A -> str) (xs : list A) :
  flat_map (fun x => if truthy (g x) then [g x] else []) xs
  = filter (fun s => truthy s = true) (map g xs).
Proof.
  induction xs as [|x xs IH]; [done|].
  cbn [flat_map map]. rewrite filter_cons, IH.
  destruct (truthy (g x)) eqn:E.
  - by rewrite decide_True.
  - by rewrite decide_False.
Qed.

Lemma stripped_lines_spec text :
  stripped_lines text = spec_candidate_entries text.
Proof. apply comprehension_filter_map. Qed.

(** [split] at a separator. *)
Lemma split_app_sep sep a b :
  split sep (a ++ sep :: b) = split sep a ++ split sep b.
Proof.
  induction a as [|c a IH].
  - cbn [app]. by rewrite split_cons, N.eqb_refl.
  - cbn [app]. rewrite !split_cons, IH. destruct (c =? sep); [done|].
    pose proof (split_not_nil sep a). by destruct (split sep a).
Qed.

Lemma split_no_sep sep s : sep ∉ s -> split sep s = [s].
Proof.
  induction s as [|c s IH]; [done|].
  intros H. apply not_elem_of_cons in H as [Hc Hs].
  rewrite split_cons, (IH Hs).
  by destruct (N.eqb_spec c sep).
Qed.

Lemma split_pieces sep s : Forall (fun l => sep ∉ l) (split sep s).
Proof.
  induction s as [|c s IH].
  - repeat constructor. apply not_elem_of_nil.
  - rewrite split_cons. destruct (N.eqb_spec c sep) as [->|Hc].
    + constructor; [apply not_elem_of_nil|done].
    + rewrite (split_hd_tl sep s) in IH. apply Forall_cons in IH as [Hh Ht].
      constructor; [|done]. apply not_elem_of_cons. split; [congruence|done].
Qed.

(** ** The source-list parser *)

Lemma fragments_strip line : fragments (strip line) = fragments line.
Proof.
  apply (per_line_strip (fun u => if truthy u then [u] else []) COMMA).
  reflexivity.
Qed.

Lemma fragments_comma l1 l2 :
  fragments (l1 ++ COMMA :: l2) = fragments l1 ++ fragments l2.
Proof. unfold fragments. by rewrite split_app_sep, flat_map_app. Qed.

(** [read_urls] line by line, without the outer [strip]. *)
Lemma read_urls_lines text :
  read_urls text = flat_map fragments (split LF text).
Proof.
  unfold read_urls.
  rewrite (per_line_strip
             (fun l => if truthy l then fragments l else []) LF eq_refl).
  apply flat_map_ext. intros line. unfold per_line.
  rewrite <- (fragments_strip line).
  by destruct (strip line).
Qed.


Lemma read_urls_blank ws : blank ws -> read_urls ws = [].
Proof. intros H. unfold read_urls. by rewrite strip_blank. Qed.

Lemma read_urls_newline t1 t2 :
  read_urls (t1 ++ LF :: t2) = read_urls t1 ++ read_urls t2.
Proof. by rewrite !read_urls_lines, split_app_sep, flat_map_app. Qed.

Lemma read_urls_comma t1 t2 :
  read_urls (t1 ++ COMMA :: t2) = read_urls t1 ++ read_urls t2.
Proof.
  rewrite !read_urls_lines, split_app.
  rewrite (split_cons LF COMMA t2). change (COMMA =? LF) with false.
  cbn [hd tl]. rewrite flat_map_app. cbn [flat_map].
  rewrite fragments_comma.
  rewrite (app_removelast_last [] (split_not_nil LF t1)) at 3.
  rewrite (split_hd_tl LF t2) at 3.
  rewrite flat_map_app. cbn [flat_map].
  by rewrite !app_nil_r, <- !app_assoc.
Qed.

(** ** The scheme filter *)

Lemma startswith_iff s p : startswith s p = true <-> exists rest, s = p ++ rest.
Proof.
  revert s. induction p as [|a p IH]; intros s.
  - split; [by exists s|]. intros _. by destruct s.
  - destruct s as [|c s]; cbn [startswith].
    + split; [done|]. by intros (rest & [=]).
    + rewrite andb_true_iff, N.eqb_eq, IH. split.
      * intros (-> & rest & ->). by exists rest.
      * intros (rest & [= -> ->]). split; [done|by exists rest].
Qed.

Lemma keep_config_iff e :
  keep_config e = true <-> exists p rest, p ∈ SCHEMES /\ e = p ++ rest.
Proof.
  unfold keep_config, startswith_any.
  rewrite andb_true_iff, existsb_exists. split.
  - intros (_ & p & Hp & Hs). apply startswith_iff in Hs as (rest & ->).
    exists p, rest. split; [by apply list_elem_of_In|done].
  - intros (p & rest & Hp & ->). split.
    + unfold SCHEMES in Hp.
      repeat (apply elem_of_cons in Hp as [->|Hp]; [done|]).
      by apply elem_of_nil in Hp.
    + exists p. split; [by apply list_elem_of_In|].
      apply startswith_iff. by exists rest.
Qed.

(** ** The aggregate set *)

Lemma elem_of_add_configs (e : str) (configs : list str)
    (all_configs : gset str) :
  e ∈ add_configs configs all_configs
  <-> e ∈ all_configs \/ (e ∈ configs /\ keep_config e = true).
Proof.
  unfold add_configs. revert all_configs.
  induction configs as [|c configs IH]; intros all_configs; cbn [foldl].
  - rewrite elem_of_nil. tauto.
  - rewrite IH, elem_of_cons. destruct (keep_config c) eqn:Hc.
    + rewrite elem_of_union, elem_of_singleton. split.
      * intros [[?| ->]|[? ?]]; auto.
      * intros [?|[[->|?] ?]]; auto.
    + split.
      * intros [?|[? ?]]; auto.
      * intros [?|[[->|?] ?]]; auto. congruence.
Qed.

(** What the fetcher returns and logs, case by case. *)
Lemma fetch_failure (w : world) (url : str) (e : RequestException) :
  fetch_fails w url e ->
  fetch_subscription_content w url
  = (Some [], [HttpGet url; ErrorFetching url e]).
Proof.
  unfold fetch_subscription_content.
  intros [->|(status_code & text & -> & ->)]; reflexivity.
Qed.

Lemma fetch_success (w : world) (url : str) (status_code : N) (text : str) :
  get w url = Response status_code text ->
  raise_for_status status_code = None ->
  fetch_subscription_content w url = (Some text, [HttpGet url]).
Proof.
  unfold fetch_subscription_content. by intros -> ->.
Qed.

Lemma fetch_other (w : world) (url : str) :
  raises_other (get w url) = true ->
  fetch_subscription_content w url = (None, [HttpGet url]).
Proof.
  unfold fetch_subscription_content. by destruct (get w url).
Qed.

Lemma fetch_returns (w : world) (url : str) :
  raises_other (get w url) = false ->
  exists content, fst (fetch_subscription_content w url) = Some content.
Proof.
  unfold fetch_subscription_content.
  destruct (get w url) as [e| |status_code text]; [by exists []|done|].
  intros _. destruct (raise_for_status status_code); [by exists []|].
  by exists text.
Qed.

(** An iteration that an exception leaves. *)
Lemma process_url_abort (w : world) (n i : nat) (url : str)
    (all_configs : gset str) :
  raises_other (get w url) = true ->
  process_url w n i url all_configs = (None, [Processing i n url; HttpGet url]).
Proof.
  intros H. unfold process_url. by rewrite (fetch_other w url H).
Qed.

Lemma process_url_fst (w : world) (n i : nat) (url : str)
    (all_configs : gset str) :
  fst (process_url w n i url all_configs)
  = match fst (fetch_subscription_content w url) with
    | None => None
    | Some content =>
        Some (if truthy content
              then add_configs (fst (extract_configs_from_content content))
                               all_configs
              else all_configs)
    end.
Proof.
  unfold process_url. rewrite !fst_bind.
  destruct (fst (fetch_subscription_content w url)) as [content|]; [|done].
  rewrite !fst_bind. by destruct (truthy content).
Qed.

(** An iteration that is completed adds the contribution of its source. *)
Lemma process_url_done (w : world) (n i : nat) (url : str)
    (all_configs : gset str) :
  raises_other (get w url) = false ->
  fst (process_url w n i url all_configs)
  = Some (all_configs ∪ contribution w url).
Proof.
  intros H. unfold contribution. rewrite !process_url_fst.
  destruct (fetch_returns w url H) as (content & ->).
  unfold default, from_option, id.
  f_equal. apply set_eq. intros e. rewrite elem_of_union.
  destruct (truthy content).
  - rewrite !elem_of_add_configs, elem_of_empty. tauto.
  - rewrite elem_of_empty. tauto.
Qed.

Lemma contribution_abort (w : world) (url : str) :
  raises_other (get w url) = true -> contribution w url = ∅.
Proof.
  intros H. unfold contribution. by rewrite (process_url_abort w 0 0 url ∅ H).
Qed.

Lemma elem_of_processed (net : str -> get_result) (url : str)
    (urls : list str) :
  url ∈ processed net urls -> url ∈ urls /\ raises_other (net url) = false.
Proof.
  induction urls as [|u urls IH]; cbn [processed].
  - by intros ?%elem_of_nil.
  - destruct (raises_other (net u)) eqn:E; [by intros ?%elem_of_nil|].
    intros [->|H]%elem_of_cons; [split; [by left|done]|].
    destruct (IH H). split; [by right|done].
Qed.

Lemma processed_no_abort (net : str -> get_result) (urls : list str) :
  no_abort net urls -> processed net urls = urls.
Proof.
  induction 1 as [|u urls Hu _ IH]; [done|].
  cbn [processed]. by rewrite Hu, IH.
Qed.

Lemma processed_app (net : str -> get_result) (url : str)
    (urls1 urls2 : list str) :
  url ∈ processed net urls1 -> url ∈ processed net (urls1 ++ urls2).
Proof.
  induction urls1 as [|u urls1 IH]; cbn [processed app].
  - by intros ?%elem_of_nil.
  - destruct (raises_other (net u)); [done|].
    intros [->|H]%elem_of_cons; [by left|right; by apply IH].
Qed.

(** The aggregate after the loop: what it held before, and the
    contributions of the sources whose iteration was completed. *)
Lemma elem_of_process_urls (e : str) (w : world) (n i : nat)
    (urls : list str) (all_configs : gset str) :
  e ∈ fst (process_urls w n i urls all_configs)
  <-> e ∈ all_configs
      \/ exists url, url ∈ processed (get w) urls /\ e ∈ contribution w url.
Proof.
  revert i all_configs.
  induction urls as [|url urls IH]; intros i all_configs.
  - cbn. split; [auto|]. intros [?|(url & H & _)]; [done|].
    by apply elem_of_nil in H.
  - cbn [process_urls processed]. rewrite fst_bind.
    destruct (raises_other (get w url)) eqn:Hr.
    + rewrite (process_url_abort w n i url all_configs Hr). cbn.
      split; [auto|]. intros [?|(u & H & _)]; [done|].
      by apply elem_of_nil in H.
    + rewrite (process_url_done w n i url all_configs Hr), IH, elem_of_union.
      split.
      * intros [[?|?]|(u & ? & ?)]; [by left| |].
        -- right. exists url. split; [by left|done].
        -- right. exists u. split; [by right|done].
      * intros [?|(u & [->|?]%elem_of_cons & ?)];
          [by left;left|by left;right|].
        right. by exists u.
Qed.

(** The network is all that a source sees of the world. *)
Lemma contribution_get (w w' : world) (url : str) :
  get w = get w' -> contribution w url = contribution w' url.
Proof.
  intros E. unfold contribution, process_url, fetch_subscription_content.
  by rewrite E.
Qed.

Lemma process_urls_permutation (w w' : world) (n n' i i' : nat)
    (urls urls' : list str) (all_configs : gset str) :
  get w = get w' ->
  no_abort (get w) urls ->
  urls ≡ₚ urls' ->
  fst (process_urls w n i urls all_configs)
  = fst (process_urls w' n' i' urls' all_configs).
Proof.
  intros E Hn Hp.
  assert (Hn' : no_abort (get w') urls').
  { unfold no_abort in *. by rewrite <- E, <- Hp. }
  apply set_eq. intros e. rewrite !elem_of_process_urls.
  rewrite (processed_no_abort _ _ Hn), (processed_no_abort _ _ Hn').
  split; (intros [?|(u & Hu & He)]; [by left|]); right; exists u.
  - by rewrite <- Hp, <- (contribution_get w w' u E).
  - by rewrite Hp, (contribution_get w w' u E).
Qed.

Lemma process_urls_app (w : world) (n i : nat) (urls1 urls2 : list str)
    (all_configs : gset str) :
  fst (process_urls w n i urls1 all_configs)
  ⊆ fst (process_urls w n i (urls1 ++ urls2) all_configs).
Proof.
  intros e. rewrite !elem_of_process_urls.
  intros [?|(u & ? & ?)]; [by left|].
  right. exists u. split; [|done]. by apply processed_app.
Qed.

(** What [write_lines] writes, and whether it gets to the end. *)
Lemma write_lines_snd (lines : list str) :
  snd (write_lines lines) = file_text (written lines).
Proof.
  induction lines as [|c lines IH]; [done|].
  cbn [write_lines written]. destruct (encodable c); [|done].
  cbn [snd]. by rewrite IH.
Qed.

Lemma write_lines_fst (lines : list str) :
  fst (write_lines lines) = forallb encodable lines.
Proof.
  induction lines as [|c lines IH]; [done|].
  cbn [write_lines forallb]. destruct (encodable c); [|done].
  cbn [fst]. by rewrite IH.
Qed.

Lemma write_sum_file_fst (w : world) (configs : gset str) :
  fst (write_sum_file w configs)
  = if sum_txt_writable w then Some (file_text (written (sorted configs)))
    else None.
Proof.
  unfold write_sum_file. destruct (sum_txt_writable w); [|done].
  cbv zeta. by rewrite fst_bind, fst_ret, write_lines_snd.
Qed.

Lemma main_fst (w : world) :
  fst (main w)
  = outcome_of (sum_txt_writable w) (fst (process_subscription_file w)).
Proof.
  unfold main, outcome_of. rewrite !fst_bind.
  destruct (bool_decide _); [done|].
  by rewrite !fst_bind, fst_ret, write_sum_file_fst.
Qed.

(** ** The order on strings *)

Lemma str_leb_cons a s b t :
  str_leb (a :: s) (b :: t) = true <-> a < b \/ (a = b /\ str_leb s t = true).
Proof.
  cbn [str_leb].
  destruct (N.ltb_spec a b), (N.eqb_spec a b); split; intros; try lia;
    intuition (try lia; try congruence).
Qed.

(** [str_le] is the lexicographic order: [s] is a prefix of [t], or the two
    differ first at a position where [s] has the smaller character. *)
Lemma str_le_lexicographic s t :
  str_le s t
  <-> (exists rest, t = s ++ rest)
      \/ (exists p a b s' t',
            s = p ++ a :: s' /\ t = p ++ b :: t' /\ a < b).
Proof.
  unfold str_le. revert t. induction s as [|a s IH]; intros t.
  - split; [|done]. intros _. left. by exists t.
  - destruct t as [|b t].
    + split; [done|]. intros [(rest & [=])|(p & ? & ? & ? & ? & _ & E & _)].
      by destruct p.
    + rewrite str_leb_cons, IH. split.
      * intros [Hlt|(-> & [(rest & ->)|(p & x & y & s' & t' & -> & -> & Hlt)])].
        -- right. by exists [], a, b, s, t.
        -- left. by exists rest.
        -- right. by exists (b :: p), x, y, s', t'.
      * intros [(rest & [= -> ->])|(p & x & y & s' & t' & Es & Et & Hlt)].
        -- right. split; [done|]. left. by exists rest.
        -- destruct p as [|c p]; cbn in Es, Et.
           ++ injection Es as -> ->. injection Et as -> ->. by left.
           ++ injection Es as -> ->. injection Et as -> ->.
              right. split; [done|]. right. by exists p, x, y, s', t'.
Qed.

#[global] Instance str_le_total : Total str_le.
Proof.
  unfold Total, str_le. intros s. induction s as [|a s IH]; intros t.
  - by left.
  - destruct t as [|b t]; [by right|].
    rewrite !str_leb_cons.
    destruct (N.lt_total a b) as [?|[->|?]]; [auto| |auto].
    destruct (IH t); auto.
Qed.

#[global] Instance str_le_trans : Transitive str_le.
Proof.
  unfold Transitive, str_le. intros s. induction s as [|a s IH]; intros t u.
  - done.
  - destruct t as [|b t]; [done|]. destruct u as [|c u]; [done|].
    rewrite !str_leb_cons.
    intros [?|[-> ?]] [?|[-> ?]]; [left; lia|by left|by left|].
    right. split; [done|]. by apply (IH t u).
Qed.

#[global] Instance str_le_antisymm : AntiSymm (=) str_le.
Proof.
  unfold AntiSymm, str_le. intros s. induction s as [|a s IH]; intros t.
  - by destruct t.
  - destruct t as [|b t]; [done|].
    rewrite !str_leb_cons.
    intros [?|[-> ?]] [?|[? ?]]; try lia. f_equal. by apply IH.
Qed.

(** ** [sorted] *)

Lemma sorted_permutation (configs : gset str) :
  sorted configs ≡ₚ elements configs.
Proof. apply merge_sort_Permutation. Qed.

Lemma elem_of_sorted (e : str) (configs : gset str) :
  e ∈ sorted configs <-> e ∈ configs.
Proof. by rewrite sorted_permutation, elem_of_elements. Qed.

Lemma NoDup_sorted (configs : gset str) : NoDup (sorted configs).
Proof. rewrite sorted_permutation. apply NoDup_elements. Qed.

Lemma sorted_ascending (configs : gset str) :
  StronglySorted str_le (sorted configs).
Proof. apply StronglySorted_merge_sort; apply _. Qed.

(** In a list without repetition an element occurs once. *)
Lemma occurs_never (e : str) (l : list str) :
  e ∉ l -> filter (fun x => x = e) l = [].
Proof.
  induction l as [|x l IH]; [done|].
  intros [Hx Hl]%not_elem_of_cons.
  rewrite filter_cons, decide_False by congruence. by apply IH.
Qed.

Lemma NoDup_occurs_once (e : str) (l : list str) :
  NoDup l -> e ∈ l -> length (filter (fun x => x = e) l) = 1%nat.
Proof.
  induction 1 as [|x l Hx Hl IH]; intros He.
  - by apply elem_of_nil in He.
  - rewrite filter_cons. destruct (decide (x = e)) as [->|Hne].
    + by rewrite occurs_never.
    + apply IH. apply elem_of_cons in He as [->|?]; done.
Qed.

(** ** The contribution of one source *)

Lemma elem_of_contribution (e : str) (w : world) (url : str) :
  e ∈ contribution w url
  <-> exists status_code body,
        get w url = Response status_code body
        /\ raise_for_status status_code = None
        /\ e ∈ fst (extract_configs_from_content body)
        /\ keep_config e = true.
Proof.
  unfold contribution. rewrite process_url_fst.
  unfold fetch_subscription_content. rewrite fst_bind.
  destruct (get w url) as [ex| |status_code body].
  - cbn. rewrite elem_of_empty. split; [done|]. by intros (? & ? & [=] & _).
  - cbn. rewrite elem_of_empty. split; [done|]. by intros (? & ? & [=] & _).
  - destruct (raise_for_status status_code) as [ex|] eqn:Hr.
    + cbn. rewrite elem_of_empty. split; [done|].
      intros (? & ? & [= <- <-] & E & _). congruence.
    + rewrite fst_ret. unfold default, from_option, id.
      destruct body as [|c body]; cbn [truthy].
      * rewrite elem_of_empty. split; [done|].
        intros (? & ? & [= <- <-] & _ & H & _). by apply elem_of_nil in H.
      * rewrite elem_of_add_configs, elem_of_empty. split.
        -- intros [[]|[? ?]]. by exists status_code, (c :: body).
        -- intros (? & ? & [= <- <-] & _ & ? & ?). by right.
Qed.

Lemma contribution_kept (w : world) (url e : str) :
  e ∈ contribution w url -> keep_config e = true.
Proof. by intros (? & ? & _ & _ & _ & ?)%elem_of_contribution. Qed.

(** The aggregate of a run. *)
Lemma elem_of_aggregate (e : str) (w : world) :
  e ∈ fst (process_subscription_file w)
  <-> exists text url,
        subs_txt w = Contents text
        /\ url ∈ processed (get w) (read_urls text)
        /\ e ∈ contribution w url.
Proof.
  unfold process_subscription_file.
  destruct (subs_txt w) as [| |text]; cbv zeta; rewrite fst_bind.
  - rewrite fst_ret, elem_of_empty. split; [done|]. by intros (? & ? & [=] & _).
  - rewrite fst_ret, elem_of_empty. split; [done|]. by intros (? & ? & [=] & _).
  - rewrite elem_of_process_urls, elem_of_empty. split.
    + intros [[]|(url & ? & ?)]. by exists text, url.
    + intros (? & url & [= <-] & ? & ?). right. by exists url.
Qed.

(** ** The lines of the output file *)

Lemma lstrip_suffix s : exists w, s = w ++ lstrip s.
Proof. destruct (lstrip_decompose s) as (w & _ & E). by exists w. Qed.

Lemma strip_no_sep (c : char) (s : str) : c ∉ s -> c ∉ strip s.
Proof.
  intros H Hin. apply H.
  destruct (lstrip_decompose s) as (w1 & _ & E1).
  destruct (rstrip_decompose (lstrip s)) as (w2 & _ & E2).
  rewrite E1, E2. fold (strip s). rewrite !elem_of_app. auto.
Qed.

Lemma stripped_lines_no_LF text :
  Forall (fun e => LF ∉ e) (stripped_lines text).
Proof.
  unfold stripped_lines. pose proof (split_pieces LF text) as H.
  induction H as [|l ls Hl _ IH]; [constructor|].
  cbn [flat_map]. destruct (truthy (strip l)); [|done].
  constructor; [by apply strip_no_sep|done].
Qed.

Lemma extract_no_LF content :
  Forall (fun e => LF ∉ e) (fst (extract_configs_from_content content)).
Proof.
  unfold extract_configs_from_content, decode_base64_configs.
  destruct (is_base64_encoded _); [|apply stripped_lines_no_LF].
  destruct (_ ≫= _); [apply stripped_lines_no_LF|constructor].
Qed.

Lemma contribution_no_LF (w : world) (url e : str) :
  e ∈ contribution w url -> LF ∉ e.
Proof.
  intros (sc & body & _ & _ & He & _)%elem_of_contribution.
  pose proof (extract_no_LF body) as H.
  rewrite Forall_forall in H. by apply H.
Qed.

Lemma aggregate_no_LF (w : world) (e : str) :
  e ∈ fst (process_subscription_file w) -> LF ∉ e.
Proof.
  intros (text & url & _ & _ & He)%elem_of_aggregate.
  by apply contribution_no_LF in He.
Qed.

Lemma split_file_text (lines : list str) :
  Forall (fun e => LF ∉ e) lines ->
  split LF (file_text lines) = lines ++ [[]].
Proof.
  induction 1 as [|e lines He _ IH]; [done|].
  unfold file_text in *. cbn [flat_map].
  rewrite <- app_assoc. cbn [app].
  by rewrite split_app_sep, IH, split_no_sep.
Qed.

(** The written lines are the first of the lines, all of them when every
    line can be encoded. *)
Lemma written_prefix (lines : list str) :
  exists rest,
    lines = written lines ++ rest
    /\ (rest = [] \/ exists c rest', rest = c :: rest' /\ encodable c = false).
Proof.
  induction lines as [|c lines (rest & E & Hr)].
  - exists []. split; [done|by left].
  - cbn [written]. destruct (encodable c) eqn:Hc.
    + exists rest. split; [cbn; by rewrite <- E|done].
    + exists (c :: lines). split; [done|]. right. by exists c, lines.
Qed.

Lemma written_encodable (lines : list str) :
  forallb encodable (written lines) = true.
Proof.
  induction lines as [|c lines IH]; [done|].
  cbn [written]. destruct (encodable c) eqn:Hc; [|done].
  cbn [forallb]. by rewrite Hc, IH.
Qed.

Lemma written_all (lines : list str) :
  forallb encodable lines = true -> written lines = lines.
Proof.
  induction lines as [|c lines IH]; [done|].
  cbn [forallb written]. intros [-> H]%andb_true_iff. by rewrite IH.
Qed.

Lemma elem_of_written (e : str) (lines : list str) :
  e ∈ written lines -> e ∈ lines.
Proof.
  destruct (written_prefix lines) as (rest & E & _).
  intros H. rewrite E. apply elem_of_app. by left.
Qed.

Lemma written_no_LF (configs : gset str) :
  (forall e, e ∈ configs -> LF ∉ e) ->
  Forall (fun e => LF ∉ e) (written (sorted configs)).
Proof.
  intros H. apply Forall_forall. intros e He%elem_of_written.
  by apply H, elem_of_sorted.
Qed.

(** ** The trace of one source *)

Lemma process_url_snd (w : world) (n i : nat) (url : str)
    (all_configs : gset str) :
  snd (process_url w n i url all_configs)
  = Processing i n url
    :: snd (fetch_subscription_content w url)
    ++ match fst (fetch_subscription_content w url) with
       | None => []
       | Some content =>
           (if truthy content
            then snd (extract_configs_from_content content)
                 ++ [FoundConfigurations
                       (length (fst (extract_configs_from_content content)))]
            else [FailedToFetch url])
           ++ [Sleep 1]
       end.
Proof.
  unfold process_url. rewrite !snd_bind.
  destruct (fst (fetch_subscription_content w url)) as [content|].
  - rewrite !snd_bind. destruct (truthy content).
    + rewrite !snd_bind, !snd_ret. unfold emit. by cbn [fst snd app].
    + rewrite !snd_bind, !snd_ret. unfold emit. by cbn [fst snd app].
  - by rewrite snd_ret.
Qed.






(** * The claims *)

(** C1: in the scenario of the specification (source list
    [http://a,http://b], body of [a] the raw text
    [vless://x\nfoo\nvmess://y\n], body of [b] the base64 encoding of
    [vmess://y\nss://z\n]) the run writes an output file whose content is
    exactly [ss://z\nvless://x\nvmess://y\n] and exits with status 0: [foo]
    is dropped, [vmess://y] is written once, the entries are sorted. *)
Theorem scenario_end_to_end :
  main scenario
  = (Outcome (Some (lit "ss://z\nvless://x\nvmess://y\n")) 0,
     [Banner; FoundUrls 2;
      Processing 1 2 (lit "http://a"); HttpGet (lit "http://a");
      FoundConfigurations 3; Sleep 1;
      Processing 2 2 (lit "http://b"); HttpGet (lit "http://b");
      FoundConfigurations 2; Sleep 1;
      SuccessfullyWrote 3; ProcessingComplete 3]).
Proof. vm_compute. reflexivity. Qed.

(** C2: for every body [s] the detector, applied to the trimmed body as
    [extract_configs_from_content] does, answers base64 exactly when
    decoding the trimmed body succeeds and encoding the decoded octets gives
    the trimmed body back, and its answer selects the branch of the
    extractor.  For every sequence of octets [B] the base64 encoding of [B]
    is classified as base64; the extracted entries are the trimmed non-empty
    lines of the text of [B], with nothing logged (when [B] is not the UTF-8
    encoding of any text there are no entries and the decoding error is
    logged). *)
Theorem encoding_detector_round_trip (s : str) (B : bytes)
    (HB : is_bytes B) :
  (is_base64_encoded (strip s) = true
   <-> exists decoded, b64decode (strip s) = Some decoded
                       /\ b64encode decoded = strip s)
  /\ extract_configs_from_content s
     = (if is_base64_encoded (strip s) then decode_base64_configs s
        else (stripped_lines s, []))
  /\ is_base64_encoded (strip (b64encode B)) = true
  /\ extract_configs_from_content (b64encode B)
     = match utf8_decode B with
       | Some text => (spec_candidate_entries text, [])
       | None => ([], [ErrorDecoding])
       end.
Proof.
  assert (Hs : strip (b64encode B) = b64encode B)
    by apply strip_no_space, b2a_base64_no_space.
  split; [apply is_base64_encoded_iff|].
  split; [reflexivity|].
  split; [rewrite Hs; by apply is_base64_encoded_b64encode|].
  unfold extract_configs_from_content.
  rewrite Hs, is_base64_encoded_b64encode by done.
  unfold decode_base64_configs.
  rewrite b64decode_b64encode by done. cbn [mbind option_bind].
  destruct (utf8_decode B) as [text|]; [|reflexivity].
  by rewrite stripped_lines_spec.
Qed.

Lemma encoding_detector_round_trip_witness :
  is_bytes (lit "vmess://y\nss://z\n")
  /\ is_base64_encoded (strip (b64encode (lit "vmess://y\nss://z\n"))) = true
  /\ extract_configs_from_content (b64encode (lit "vmess://y\nss://z\n"))
     = ([lit "vmess://y"; lit "ss://z"], []).
Proof.
  assert (HB : is_bytes (lit "vmess://y\nss://z\n")) by (repeat constructor).
  split; [exact HB|].
  exact (proj2 (proj2 (encoding_detector_round_trip (lit "vless://x")
                         (lit "vmess://y\nss://z\n") HB))).
Defined.

(** C3: an entry passes the scheme filter exactly when it starts with one of
    [vmess://], [vless://], [ss://], [trojan://], [hysteria2://], compared
    character by character; the aggregate keeps exactly the entries that
    pass.  [VMESS://] followed by anything is rejected, and so is [vmess:/]
    alone or followed by anything but a second slash (character 47). *)
Theorem scheme_filter_correct (e : str) :
  (keep_config e = true
   <-> exists p rest,
         p ∈ [lit "vmess://"; lit "vless://"; lit "ss://"; lit "trojan://";
              lit "hysteria2://"]
         /\ e = p ++ rest)
  /\ (forall (configs : list str) (all_configs : gset str),
        e ∈ add_configs configs all_configs
        <-> e ∈ all_configs \/ (e ∈ configs /\ keep_config e = true))
  /\ (forall rest, keep_config (lit "VMESS://" ++ rest) = false)
  /\ keep_config (lit "vmess:/") = false
  /\ (forall c rest, keep_config (lit "vmess:/" ++ c :: rest) = (c =? 47)).
Proof.
  split; [apply keep_config_iff|].
  split; [intros; apply elem_of_add_configs|].
  split; [reflexivity|]. split; [reflexivity|].
  intros c rest. vm_compute.
  destruct c as [|p]; [reflexivity|].
  repeat (destruct p as [p|p|]; try reflexivity); by destruct rest.
Qed.

(** C4 (as the code has it): the empty body is classified as base64, not as
    raw: it decodes to no octets, which encode to the empty string again.
    It yields no candidate entry, and nothing is logged. *)
Theorem empty_body_is_base64 :
  is_base64_encoded (strip []) = true
  /\ extract_configs_from_content [] = ([], []).
Proof. split; reflexivity. Qed.

(** C4, the claim as stated fails: the detector does not answer raw on the
    empty body. *)
Lemma empty_body_not_raw : is_base64_encoded (strip []) <> false.
Proof. discriminate. Qed.

(** C5 (as the code has it): with the network fixed, and no fetch of the
    list raising an exception outside [RequestException], two source lists
    whose URLs are the same up to order give the same output file and the
    same exit status. *)
Theorem output_order_independent (net : str -> get_result) (writable : bool)
    (text text' : str)
    (Hperm : read_urls text ≡ₚ read_urls text')
    (Hnet : no_abort net (read_urls text)) :
  fst (main (World (Contents text) net writable))
  = fst (main (World (Contents text') net writable)).
Proof.
  rewrite !main_fst. cbn [sum_txt_writable]. f_equal.
  unfold process_subscription_file. cbn [subs_txt]. cbv zeta.
  rewrite !fst_bind. by apply process_urls_permutation.
Qed.

Lemma output_order_independent_witness :
  read_urls (lit "http://a,http://b") ≡ₚ read_urls (lit "http://b\nhttp://a")
  /\ no_abort scenario_get (read_urls (lit "http://a,http://b"))
  /\ fst (main (World (Contents (lit "http://a,http://b")) scenario_get true))
     = fst (main (World (Contents (lit "http://b\nhttp://a")) scenario_get
                        true)).
Proof.
  assert (H : read_urls (lit "http://a,http://b")
              ≡ₚ read_urls (lit "http://b\nhttp://a"))
    by (vm_compute; apply perm_swap).
  assert (Hn : no_abort scenario_get (read_urls (lit "http://a,http://b")))
    by (vm_compute; repeat constructor).
  split; [exact H|]. split; [exact Hn|].
  exact (output_order_independent scenario_get true _ _ H Hn).
Defined.

(** C5, the claim as stated fails: the same three URLs in two orders, one
    of them a URL that [requests.get] cannot parse.  The exception ends the
    loop at that URL, so each run writes only what came before it. *)
Lemma abort_breaks_order_independence :
  read_urls (lit "http://a," ++ bad_url ++ lit ",http://b")
  ≡ₚ read_urls (lit "http://b," ++ bad_url ++ lit ",http://a")
  /\ get bad_between_ab = get bad_between_ba
  /\ sum_txt (fst (main bad_between_ab)) = Some (lit "vmess://a\n")
  /\ sum_txt (fst (main bad_between_ba)) = Some (lit "ss://b\n").
Proof.
  split; [|split; [reflexivity|split; vm_compute; reflexivity]].
  assert (E1 : read_urls (lit "http://a," ++ bad_url ++ lit ",http://b")
               = [lit "http://a"; bad_url; lit "http://b"])
    by (vm_compute; reflexivity).
  assert (E2 : read_urls (lit "http://b," ++ bad_url ++ lit ",http://a")
               = rev [lit "http://a"; bad_url; lit "http://b"])
    by (vm_compute; reflexivity).
  rewrite E1, E2. apply Permutation_rev.
Qed.

(** ** Occurrences in the output file *)

Lemma occurrences_app (e : str) (l1 l2 : list str) :
  occurrences e (l1 ++ l2) = (occurrences e l1 + occurrences e l2)%nat.
Proof. unfold occurrences. by rewrite filter_app, length_app. Qed.

Lemma NoDup_written (lines : list str) : NoDup lines -> NoDup (written lines).
Proof.
  destruct (written_prefix lines) as (rest & E & _).
  intros H. rewrite E in H. by apply NoDup_app in H as (? & _).
Qed.

Lemma aggregate_kept (w : world) (e : str) :
  e ∈ fst (process_subscription_file w) -> keep_config e = true.
Proof.
  intros (text & url & _ & _ & He)%elem_of_aggregate.
  by apply contribution_kept in He.
Qed.

Lemma split_written (w : world) :
  split LF (file_text (written (sorted (fst (process_subscription_file w)))))
  = written (sorted (fst (process_subscription_file w))) ++ [[]].
Proof.
  apply split_file_text, written_no_LF. intros e. apply aggregate_no_LF.
Qed.

(** An entry that reaches the file is one line of it; no string is more
    than one line. *)
Lemma file_occurrences_once (w : world) (e : str) :
  e ∈ written (sorted (fst (process_subscription_file w))) ->
  occurrences e
    (split LF (file_text
                 (written (sorted (fst (process_subscription_file w))))))
  = 1%nat.
Proof.
  intros He. rewrite split_written, occurrences_app.
  unfold occurrences at 1.
  rewrite (NoDup_occurs_once e _ (NoDup_written _ (NoDup_sorted _)) He).
  unfold occurrences. rewrite filter_cons, filter_nil.
  case_decide as E; [|done]. subst e.
  apply elem_of_written, elem_of_sorted, aggregate_kept in He. done.
Qed.

Lemma file_occurrences_le (w : world) (e : str) :
  (occurrences e
     (split LF (file_text
                  (written (sorted (fst (process_subscription_file w))))))
   <= 1)%nat.
Proof.
  destruct (decide (e ∈ written (sorted (fst (process_subscription_file w)))))
    as [He|He].
  - by rewrite file_occurrences_once.
  - rewrite split_written, occurrences_app. unfold occurrences.
    rewrite (occurs_never e _ He), filter_cons, filter_nil.
    case_decide; cbn [length]; lia.
Qed.

(** C6 (as the code has it): adding an entry the aggregate holds changes
    nothing; adding the entries of a body, completing the iteration of a
    source, and running the loop over more sources only ever extend the
    aggregate, so its size never decreases.  The list handed to the writer
    has no repetition, and no string is more than one line of the output
    file.  An entry contributed by two different sources whose iterations
    are completed is in the final aggregate once, and is exactly one line
    of the output file when the file can be opened and every entry can be
    encoded. *)
Theorem aggregate_set_invariant (w : world) (n i : nat) (url e : str)
    (configs urls1 urls2 : list str) (all_configs : gset str) :
  (e ∈ all_configs ->
   add_configs (e :: configs) all_configs = add_configs configs all_configs)
  /\ all_configs ⊆ add_configs configs all_configs
  /\ (forall after : gset str,
        fst (process_url w n i url all_configs) = Some after ->
        all_configs ⊆ after /\ (size all_configs <= size after)%nat)
  /\ all_configs ⊆ fst (process_urls w n i urls1 all_configs)
  /\ fst (process_urls w n i urls1 all_configs)
     ⊆ fst (process_urls w n i (urls1 ++ urls2) all_configs)
  /\ NoDup (sorted (fst (process_subscription_file w)))
  /\ (forall out,
        sum_txt (fst (main w)) = Some out ->
        (occurrences e (split LF out) <= 1)%nat)
  /\ (forall text u1 u2,
        subs_txt w = Contents text ->
        u1 ∈ processed (get w) (read_urls text) ->
        u2 ∈ processed (get w) (read_urls text) ->
        u1 <> u2 ->
        e ∈ contribution w u1 -> e ∈ contribution w u2 ->
        e ∈ fst (process_subscription_file w)
        /\ occurrences e (sorted (fst (process_subscription_file w))) = 1%nat
        /\ (sum_txt_writable w = true ->
            forallb encodable (sorted (fst (process_subscription_file w)))
            = true ->
            exists out,
              sum_txt (fst (main w)) = Some out
              /\ occurrences e (split LF out) = 1%nat)).
Proof.
  split.
  { intros He. unfold add_configs. cbn [foldl].
    destruct (keep_config e); [|done].
    f_equal. apply set_eq. intros x.
    rewrite elem_of_union, elem_of_singleton. split; [|auto].
    by intros [?| ->]. }
  split; [intros x Hx; apply elem_of_add_configs; by left|].
  split.
  { intros after Hafter.
    assert (Hsub : all_configs ⊆ after).
    { destruct (raises_other (get w url)) eqn:Hr.
      - by rewrite (process_url_abort w n i url all_configs Hr) in Hafter.
      - rewrite (process_url_done w n i url all_configs Hr) in Hafter.
        injection Hafter as <-. intros x Hx. apply elem_of_union. by left. }
    split; [exact Hsub|by apply subseteq_size]. }
  split; [intros x Hx; apply elem_of_process_urls; by left|].
  split; [apply process_urls_app|].
  split; [apply NoDup_sorted|].
  split.
  { intros out. rewrite main_fst. unfold outcome_of.
    destruct (bool_decide _); [done|]. cbn [sum_txt].
    destruct (sum_txt_writable w); [|done]. intros [= <-].
    apply file_occurrences_le. }
  intros text u1 u2 Hw H1 H2 Hne E1 E2.
  assert (He : e ∈ fst (process_subscription_file w))
    by (apply elem_of_aggregate; by exists text, u1).
  split; [exact He|]. split.
  { apply NoDup_occurs_once; [apply NoDup_sorted|by apply elem_of_sorted]. }
  intros Hopen Henc.
  exists (file_text (written (sorted (fst (process_subscription_file w))))).
  rewrite main_fst. unfold outcome_of.
  rewrite bool_decide_eq_false_2 by (intros E; rewrite E in He; set_solver).
  rewrite Hopen. split; [reflexivity|].
  apply file_occurrences_once. rewrite written_all by done.
  by apply elem_of_sorted.
Qed.

Lemma aggregate_set_invariant_witness :
  subs_txt scenario = Contents (lit "http://a,http://b")
  /\ lit "http://a" ∈ processed (get scenario) (read_urls (lit "http://a,http://b"))
  /\ lit "http://b" ∈ processed (get scenario) (read_urls (lit "http://a,http://b"))
  /\ lit "http://a" <> lit "http://b"
  /\ lit "vmess://y" ∈ contribution scenario (lit "http://a")
  /\ lit "vmess://y" ∈ contribution scenario (lit "http://b")
  /\ lit "vmess://y" ∈ fst (process_subscription_file scenario)
  /\ occurrences (lit "vmess://y")
       (sorted (fst (process_subscription_file scenario))) = 1%nat
  /\ exists out,
       sum_txt (fst (main scenario)) = Some out
       /\ occurrences (lit "vmess://y") (split LF out) = 1%nat.
Proof.
  assert (H1 : lit "http://a"
               ∈ processed (get scenario) (read_urls (lit "http://a,http://b")))
    by (vm_compute; apply list_elem_of_here).
  assert (H2 : lit "http://b"
               ∈ processed (get scenario) (read_urls (lit "http://a,http://b")))
    by (vm_compute; apply list_elem_of_further, list_elem_of_here).
  assert (Hne : lit "http://a" <> lit "http://b") by discriminate.
  assert (E1 : lit "vmess://y" ∈ contribution scenario (lit "http://a"))
    by (apply (bool_decide_unpack _); vm_compute; exact I).
  assert (E2 : lit "vmess://y" ∈ contribution scenario (lit "http://b"))
    by (apply (bool_decide_unpack _); vm_compute; exact I).
  assert (Henc : forallb encodable
                   (sorted (fst (process_subscription_file scenario))) = true)
    by (vm_compute; reflexivity).
  destruct (proj2 (proj2 (proj2 (proj2 (proj2 (proj2 (proj2
    (aggregate_set_invariant scenario 2 1 (lit "http://a") (lit "vmess://y")
       [] [] [] ∅))))))) _ _ _ eq_refl H1 H2 Hne E1 E2) as (He & Hocc & Hfile).
  split; [reflexivity|]. split; [exact H1|]. split; [exact H2|].
  split; [exact Hne|]. split; [exact E1|]. split; [exact E2|].
  split; [exact He|]. split; [exact Hocc|].
  exact (Hfile eq_refl Henc).
Defined.

(** C6, the claim as stated fails: both sources contribute [vmess://y], but
    an entry with a lone surrogate sorts before it; the write of that entry
    raises, the file stays empty, and [vmess://y] is no line of it. *)
Lemma surrogate_hides_entry :
  lit "vmess://y" ∈ contribution surrogate_first (lit "http://a")
  /\ lit "vmess://y" ∈ contribution surrogate_first (lit "http://b")
  /\ processed (get surrogate_first) (read_urls (lit "http://a,http://b"))
     = [lit "http://a"; lit "http://b"]
  /\ sum_txt (fst (main surrogate_first)) = Some []
  /\ occurrences (lit "vmess://y") (split LF []) = 0%nat.
Proof.
  split; [apply (bool_decide_unpack _); vm_compute; exact I|].
  split; [apply (bool_decide_unpack _); vm_compute; exact I|].
  split; [vm_compute; reflexivity|].
  split; [vm_compute; reflexivity|reflexivity].
Qed.

(** C7 (as the code has it): the writer takes the entries of the set, each
    once, in ascending lexicographic order of their code points, and writes
    them one per line, each followed by a line feed, up to the first entry
    that has no UTF-8 encoding; there the write raises, the error is
    reported, and the lines before it are the file.  When the file can be
    opened and every entry can be encoded, the file holds the whole sorted
    set, with a line feed after the last entry, and the success is reported;
    when the file cannot be opened, nothing is written.  The lines of the
    file written for the aggregate of a run are exactly the written
    entries. *)
Theorem output_writer_format (w : world) (configs : gset str) :
  (forall e : str, e ∈ sorted configs <-> e ∈ configs)
  /\ NoDup (sorted configs)
  /\ StronglySorted str_le (sorted configs)
  /\ (forall s t : str,
        str_le s t
        <-> (exists rest, t = s ++ rest)
            \/ (exists p a b s' t',
                  s = p ++ a :: s' /\ t = p ++ b :: t' /\ a < b))
  /\ (exists rest,
        sorted configs = written (sorted configs) ++ rest
        /\ (rest = []
            \/ exists c rest', rest = c :: rest' /\ encodable c = false))
  /\ forallb encodable (written (sorted configs)) = true
  /\ fst (write_sum_file w configs)
     = (if sum_txt_writable w
        then Some (file_text (written (sorted configs))) else None)
  /\ (forall (lines : list str) (e : str),
        file_text (lines ++ [e]) = file_text lines ++ e ++ [LF])
  /\ (sum_txt_writable w = true ->
      forallb encodable (sorted configs) = true ->
      write_sum_file w configs
      = (Some (file_text (sorted configs)),
         [SuccessfullyWrote (size configs)]))
  /\ (forallb encodable (sorted configs) = false ->
      snd (write_sum_file w configs) = [ErrorWriting])
  /\ (forall out,
        fst (write_sum_file w (fst (process_subscription_file w))) = Some out ->
        split LF out
        = written (sorted (fst (process_subscription_file w))) ++ [[]]).
Proof.
  split; [intros e; apply elem_of_sorted|].
  split; [apply NoDup_sorted|].
  split; [apply sorted_ascending|].
  split; [apply str_le_lexicographic|].
  split; [apply written_prefix|].
  split; [apply written_encodable|].
  split; [apply write_sum_file_fst|].
  split.
  { intros lines e. unfold file_text. rewrite flat_map_app. cbn.
    by rewrite app_nil_r. }
  split.
  { intros Hopen Henc. unfold write_sum_file. rewrite Hopen. cbv zeta.
    pose proof (write_lines_fst (sorted configs)) as Hf.
    pose proof (write_lines_snd (sorted configs)) as Hs.
    rewrite Henc in Hf. rewrite written_all in Hs by done.
    destruct (write_lines (sorted configs)) as [ok text].
    cbn [fst snd] in *. by subst. }
  split.
  { intros Henc. unfold write_sum_file.
    destruct (sum_txt_writable w); [|done]. cbv zeta.
    by rewrite snd_bind, snd_ret, write_lines_fst, Henc. }
  intros out. rewrite write_sum_file_fst.
  destruct (sum_txt_writable w); [|done]. intros [= <-].
  apply split_written.
Qed.

Lemma output_writer_format_witness :
  sum_txt_writable scenario = true
  /\ forallb encodable
       (sorted ({[ lit "vless://x" ]} ∪ {[ lit "ss://z" ]})) = true
  /\ write_sum_file scenario ({[ lit "vless://x" ]} ∪ {[ lit "ss://z" ]})
     = (Some (file_text
                (sorted ({[ lit "vless://x" ]} ∪ {[ lit "ss://z" ]}))),
        [SuccessfullyWrote (size ({[ lit "vless://x" ]} ∪ {[ lit "ss://z" ]}
                                  : gset str))]).
Proof.
  assert (Henc : forallb encodable
                   (sorted ({[ lit "vless://x" ]} ∪ {[ lit "ss://z" ]}))
                 = true)
    by (vm_compute; reflexivity).
  split; [reflexivity|]. split; [exact Henc|].
  destruct (output_writer_format scenario
              ({[ lit "vless://x" ]} ∪ {[ lit "ss://z" ]}))
    as (_ & _ & _ & _ & _ & _ & _ & _ & H & _).
  exact (H eq_refl Henc).
Defined.

(** C7, the claim as stated fails: the aggregate holds [ss://z] and an entry
    with a lone surrogate; the write of the second raises, so the file is
    the one line [ss://z], the error is reported, and [main] still reports
    two configurations found and exits with status 0. *)
Lemma surrogate_truncates_output :
  surrogate_entry ∈ fst (process_subscription_file surrogate_last)
  /\ main surrogate_last
     = (Outcome (Some (lit "ss://z\n")) 0,
        [Banner; FoundUrls 1;
         Processing 1 1 (lit "http://a"); HttpGet (lit "http://a");
         FoundConfigurations 2; Sleep 1;
         ErrorWriting; ProcessingComplete 2]).
Proof.
  split; [apply (bool_decide_unpack _); vm_compute; exact I|].
  vm_compute. reflexivity.
Qed.




(** C9, the claim as stated fails: a response whose status is not 2xx (300
    here) is no failure for the fetcher; its body contributes an entry, the
    entry is written, and no warning is logged. *)
Lemma non_2xx_status_contributes :
  (300 <? 200) || (299 <? 300) = true
  /\ contribution multiple_choices (lit "http://a") = {[ lit "vmess://x" ]}
  /\ main multiple_choices
     = (Outcome (Some (lit "vmess://x\n")) 0,
        [Banner; FoundUrls 1;
         Processing 1 1 (lit "http://a"); HttpGet (lit "http://a");
         FoundConfigurations 1; Sleep 1;
         SuccessfullyWrote 1; ProcessingComplete 1]).
Proof.
  split; [reflexivity|]. split.
  - apply (bool_decide_unpack _). vm_compute. exact I.
  - vm_compute. reflexivity.
Qed.

(** C9 (as the code has it): a fetch that fails with a [RequestException]
    ([requests.get] raises a connection error or a timeout, or the status
    is from 400 to 599, for which [raise_for_status] raises) is logged,
    leaves the aggregate as it was, and the loop goes on with the remaining
    URLs from that aggregate.  A body classified as base64 whose decoding
    fails (not ASCII, or octets that are not UTF-8) yields no entry and is
    logged; the source then leaves the aggregate as it was and the loop
    goes on.  An exception of any other class raised by the request is not
    caught by the fetcher: it leaves the iteration, the handler around the
    loop logs it, and the run goes on to the writer with the aggregate as
    it was, without the pause and without the remaining URLs. *)
Theorem per_source_errors_recovered (w : world) (n i : nat) (url : str)
    (urls : list str) (all_configs : gset str) :
  (forall e : RequestException,
     fetch_fails w url e ->
     process_url w n i url all_configs
     = (Some all_configs,
        [Processing i n url; HttpGet url; ErrorFetching url e;
         FailedToFetch url; Sleep 1])
     /\ process_urls w n i (url :: urls) all_configs
        = (fst (process_urls w n (S i) urls all_configs),
           [Processing i n url; HttpGet url; ErrorFetching url e;
            FailedToFetch url; Sleep 1]
           ++ snd (process_urls w n (S i) urls all_configs)))
  /\ (forall (status_code : N) (content : str),
        get w url = Response status_code content ->
        raise_for_status status_code = None ->
        truthy content = true ->
        is_base64_encoded (strip content) = true ->
        b64decode content ≫= utf8_decode = None ->
        extract_configs_from_content content = ([], [ErrorDecoding])
        /\ process_url w n i url all_configs
           = (Some all_configs,
              [Processing i n url; HttpGet url; ErrorDecoding;
               FoundConfigurations 0; Sleep 1])
        /\ process_urls w n i (url :: urls) all_configs
           = (fst (process_urls w n (S i) urls all_configs),
              [Processing i n url; HttpGet url; ErrorDecoding;
               FoundConfigurations 0; Sleep 1]
              ++ snd (process_urls w n (S i) urls all_configs)))
  /\ (get w url = RaisesOther ->
      process_url w n i url all_configs
      = (None, [Processing i n url; HttpGet url])
      /\ process_urls w n i (url :: urls) all_configs
         = (all_configs,
            [Processing i n url; HttpGet url; ErrorProcessing])).
Proof.
  split; [|split].
  - intros e Hfail.
    assert (H1 : process_url w n i url all_configs
                 = (Some all_configs,
                    [Processing i n url; HttpGet url; ErrorFetching url e;
                     FailedToFetch url; Sleep 1])).
    { unfold process_url. by rewrite (fetch_failure w url e Hfail). }
    split; [exact H1|]. cbn [process_urls]. by rewrite H1.
  - intros status_code content Hget Hok Hbody Hb64 Hdec.
    assert (H2 : extract_configs_from_content content = ([], [ErrorDecoding])).
    { unfold extract_configs_from_content, decode_base64_configs.
      by rewrite Hb64, Hdec. }
    assert (H3 : process_url w n i url all_configs
                 = (Some all_configs,
                    [Processing i n url; HttpGet url; ErrorDecoding;
                     FoundConfigurations 0; Sleep 1])).
    { unfold process_url.
      rewrite (fetch_success w url status_code content Hget Hok).
      unfold mbind, M_bind. cbn [fst snd]. by rewrite Hbody, H2. }
    split; [exact H2|]. split; [exact H3|].
    cbn [process_urls]. by rewrite H3.
  - intros Hget.
    assert (Hr : raises_other (get w url) = true) by by rewrite Hget.
    pose proof (process_url_abort w n i url all_configs Hr) as H4.
    split; [exact H4|]. cbn [process_urls]. by rewrite H4.
Qed.

Lemma per_source_errors_recovered_witness :
  fetch_fails faulty (lit "http://a") Timeout
  /\ is_base64_encoded (strip (lit "/w==")) = true
  /\ b64decode (lit "/w==") ≫= utf8_decode = None
  /\ get bad_twice bad_url = RaisesOther
  /\ process_urls faulty 2 1 [lit "http://a"; lit "http://b"] ∅
     = (fst (process_urls faulty 2 2 [lit "http://b"] ∅),
        [Processing 1 2 (lit "http://a"); HttpGet (lit "http://a");
         ErrorFetching (lit "http://a") Timeout;
         FailedToFetch (lit "http://a"); Sleep 1]
        ++ snd (process_urls faulty 2 2 [lit "http://b"] ∅))
  /\ process_url faulty 2 2 (lit "http://b") ∅
     = (Some ∅, [Processing 2 2 (lit "http://b"); HttpGet (lit "http://b");
                 ErrorDecoding; FoundConfigurations 0; Sleep 1])
  /\ process_urls bad_twice 2 1 [bad_url; bad_url] ∅
     = (∅, [Processing 1 2 bad_url; HttpGet bad_url; ErrorProcessing]).
Proof.
  assert (Hfail : fetch_fails faulty (lit "http://a") Timeout)
    by (left; reflexivity).
  assert (Hget : get faulty (lit "http://b") = Response 200 (lit "/w=="))
    by reflexivity.
  assert (Hb64 : is_base64_encoded (strip (lit "/w==")) = true)
    by (vm_compute; reflexivity).
  assert (Hdec : b64decode (lit "/w==") ≫= utf8_decode = None)
    by (vm_compute; reflexivity).
  assert (Hbad : get bad_twice bad_url = RaisesOther)
    by (vm_compute; reflexivity).
  split; [exact Hfail|]. split; [exact Hb64|]. split; [exact Hdec|].
  split; [exact Hbad|].
  split.
  { destruct (per_source_errors_recovered faulty 2 1 (lit "http://a")
                [lit "http://b"] ∅) as (H & _ & _).
    exact (proj2 (H Timeout Hfail)). }
  split.
  { destruct (per_source_errors_recovered faulty 2 2 (lit "http://b") [] ∅)
      as (_ & H & _).
    exact (proj1 (proj2 (H 200 (lit "/w==") Hget eq_refl eq_refl Hb64 Hdec))). }
  destruct (per_source_errors_recovered bad_twice 2 1 bad_url [bad_url] ∅)
    as (_ & _ & H).
  exact (proj2 (H Hbad)).
Defined.

(** C10: a fetch that succeeds with an empty body and a fetch that fails
    give the caller the same value, the empty string.  In both cases the
    source leaves the aggregate as it was and is reported with the line
    "Failed to fetch content", never with a count of configurations; the
    failing fetch has logged its own error line before. *)
Theorem empty_body_is_failed_fetch (w w' : world) (n i : nat) (url : str)
    (status_code : N) (e : RequestException) (all_configs : gset str)
    (Hempty : get w url = Response status_code [])
    (Hok : raise_for_status status_code = None)
    (Hfail : fetch_fails w' url e) :
  fst (fetch_subscription_content w url) = Some []
  /\ fst (fetch_subscription_content w' url) = Some []
  /\ process_url w n i url all_configs
     = (Some all_configs,
        [Processing i n url; HttpGet url; FailedToFetch url; Sleep 1])
  /\ process_url w' n i url all_configs
     = (Some all_configs,
        [Processing i n url; HttpGet url; ErrorFetching url e;
         FailedToFetch url; Sleep 1]).
Proof.
  pose proof (fetch_success w url status_code [] Hempty Hok) as H.
  pose proof (fetch_failure w' url e Hfail) as H'.
  split; [by rewrite H|]. split; [by rewrite H'|].
  unfold process_url. by rewrite H, H'.
Qed.

Lemma empty_body_is_failed_fetch_witness :
  get empty_answer (lit "http://a") = Response 200 []
  /\ raise_for_status 200 = None
  /\ fetch_fails unreachable (lit "http://a") ConnectionError
  /\ process_url empty_answer 1 1 (lit "http://a") ∅
     = (Some ∅, [Processing 1 1 (lit "http://a"); HttpGet (lit "http://a");
                 FailedToFetch (lit "http://a"); Sleep 1])
  /\ process_url unreachable 1 1 (lit "http://a") ∅
     = (Some ∅, [Processing 1 1 (lit "http://a"); HttpGet (lit "http://a");
                 ErrorFetching (lit "http://a") ConnectionError;
                 FailedToFetch (lit "http://a"); Sleep 1]).
Proof.
  assert (Hfail : fetch_fails unreachable (lit "http://a") ConnectionError)
    by (left; reflexivity).
  split; [reflexivity|]. split; [reflexivity|]. split; [exact Hfail|].
  exact (proj2 (proj2 (empty_body_is_failed_fetch empty_answer unreachable
           1 1 (lit "http://a") 200 ConnectionError ∅
           eq_refl eq_refl Hfail))).
Defined.

(** * Further properties of the script *)

(** ** More on [strip] *)

Lemma lstrip_head s :
  lstrip s = [] \/ exists c r, lstrip s = c :: r /\ isspace c = false.
Proof.
  induction s as [|c s IH]; [by left|].
  cbn. destruct (isspace c) eqn:Hc; [done|]. right. by exists c, s.
Qed.

Lemma lstrip_idem s : lstrip (lstrip s) = lstrip s.
Proof.
  destruct (lstrip_head s) as [->|(c & r & -> & Hc)]; [done|].
  cbn. by rewrite Hc.
Qed.

Lemma rstrip_idem s : rstrip (rstrip s) = rstrip s.
Proof. unfold rstrip. by rewrite rev_involutive, lstrip_idem. Qed.

(** [rstrip] keeps a first character that is no white space. *)
Lemma lstrip_rstrip c r :
  isspace c = false -> lstrip (rstrip (c :: r)) = rstrip (c :: r).
Proof.
  intros Hc. destruct (rstrip_decompose (c :: r)) as (w & Hw & E).
  destruct (rstrip (c :: r)) as [|c' r'] eqn:Er; [done|].
  cbn in E. injection E as <- _. cbn. by rewrite Hc.
Qed.

Lemma strip_lstrip s : lstrip (strip s) = strip s.
Proof.
  unfold strip. destruct (lstrip_head s) as [->|(c & r & -> & Hc)]; [done|].
  by apply lstrip_rstrip.
Qed.

Lemma strip_idem s : strip (strip s) = strip s.
Proof.
  unfold strip at 1. rewrite strip_lstrip. unfold strip. apply rstrip_idem.
Qed.

(** White space apart, [strip] loses no character. *)
Lemma elem_of_strip (c : char) (s : str) :
  isspace c = false -> c ∈ s -> c ∈ strip s.
Proof.
  intros Hc Hin.
  destruct (lstrip_decompose s) as (w1 & Hw1 & E1).
  destruct (rstrip_decompose (lstrip s)) as (w2 & Hw2 & E2).
  fold (strip s) in E2. rewrite E1, E2, !elem_of_app in Hin.
  unfold blank in Hw1, Hw2. rewrite Forall_forall in Hw1, Hw2.
  destruct Hin as [H|[H|H]]; [|done|].
  - apply Hw1 in H. congruence.
  - apply Hw2 in H. congruence.
Qed.

Lemma elem_of_strip_inv (c : char) (s : str) : c ∈ strip s -> c ∈ s.
Proof.
  intros Hin.
  destruct (lstrip_decompose s) as (w1 & _ & E1).
  destruct (rstrip_decompose (lstrip s)) as (w2 & _ & E2).
  fold (strip s) in E2. rewrite E1, E2, !elem_of_app. auto.
Qed.

Lemma split_elem (sep c : char) (s l : str) :
  l ∈ split sep s -> c ∈ l -> c ∈ s.
Proof.
  revert l. induction s as [|a s IH]; intros l.
  - cbn. intros ->%list_elem_of_singleton. by intros ?%elem_of_nil.
  - rewrite split_cons. destruct (a =? sep).
    + intros [->|Hl]%elem_of_cons Hc; [by apply elem_of_nil in Hc|].
      right. by apply (IH l).
    + rewrite (split_hd_tl sep s) in IH.
      intros [->|Hl]%elem_of_cons Hc.
      * apply elem_of_cons in Hc as [->|Hc]; [by left|].
        right. apply (IH (hd [] (split sep s))); [by left|done].
      * right. apply (IH l); [by right|done].
Qed.

(** ** The entries of a body *)

Lemma stripped_lines_trimmed text :
  Forall trimmed_line (stripped_lines text).
Proof.
  unfold stripped_lines. pose proof (split_pieces LF text) as H.
  induction H as [|l ls Hl _ IH]; [constructor|].
  cbn [flat_map]. destruct (truthy (strip l)) eqn:Ht; [|done].
  constructor; [|done]. split; [by apply truthy_true|].
  split; [apply strip_idem|by apply strip_no_sep].
Qed.

Lemma extract_trimmed content :
  Forall trimmed_line (fst (extract_configs_from_content content)).
Proof.
  unfold extract_configs_from_content, decode_base64_configs.
  destruct (is_base64_encoded _); [|apply stripped_lines_trimmed].
  destruct (_ ≫= _); [apply stripped_lines_trimmed|constructor].
Qed.

(** ** Where the entries of the aggregate come from *)

Lemma aggregate_trimmed (e : str) (w : world) :
  e ∈ fst (process_subscription_file w) ->
  keep_config e = true /\ trimmed_line e.
Proof.
  intros (text & url & _ & _ & H)%elem_of_aggregate.
  apply elem_of_contribution in H as (sc & body & _ & _ & He & Hk).
  split; [done|].
  pose proof (extract_trimmed body) as HF. rewrite Forall_forall in HF.
  by apply HF.
Qed.

(** The aggregate holds exactly the entries that pass the scheme filter and
    were extracted from the body of a response, with a status outside
    400..599, to a URL of the subscription file that comes before every URL
    whose request raises an exception outside [RequestException]. *)
Theorem aggregate_exact (w : world) (e : str) :
  e ∈ fst (process_subscription_file w)
  <-> exists text url status_code body,
        subs_txt w = Contents text
        /\ url ∈ processed (get w) (read_urls text)
        /\ get w url = Response status_code body
        /\ raise_for_status status_code = None
        /\ e ∈ fst (extract_configs_from_content body)
        /\ keep_config e = true.
Proof.
  rewrite elem_of_aggregate. split.
  - intros (text & url & ? & ? & (sc & body & ? & ? & ? & ?)%elem_of_contribution).
    by exists text, url, sc, body.
  - intros (text & url & sc & body & ? & ? & ? & ? & ? & ?).
    exists text, url. split; [done|]. split; [done|].
    apply elem_of_contribution. by exists sc, body.
Qed.

(** Every non-empty line of the file [main] writes passes the scheme filter,
    has no white space at either end, and is an entry of the aggregate. *)
Theorem written_lines_recognised (w : world) (out line : str)
    (Hout : sum_txt (fst (main w)) = Some out)
    (Hline : line ∈ split LF out) (Hne : line <> []) :
  keep_config line = true
  /\ strip line = line
  /\ line ∈ fst (process_subscription_file w).
Proof.
  rewrite main_fst in Hout. unfold outcome_of in Hout.
  destruct (bool_decide _); [done|]. cbn [sum_txt] in Hout.
  destruct (sum_txt_writable w); [|done]. injection Hout as <-.
  rewrite split_written in Hline.
  apply elem_of_app in Hline as [Hl|Hl].
  - apply elem_of_written, elem_of_sorted in Hl.
    destruct (aggregate_trimmed line w Hl) as (Hk & _ & Hs & _). done.
  - by apply list_elem_of_singleton in Hl.
Qed.

Lemma written_lines_recognised_witness :
  sum_txt (fst (main scenario)) = Some (lit "ss://z\nvless://x\nvmess://y\n")
  /\ lit "vless://x" ∈ split LF (lit "ss://z\nvless://x\nvmess://y\n")
  /\ lit "vless://x" <> []
  /\ keep_config (lit "vless://x") = true
  /\ strip (lit "vless://x") = lit "vless://x"
  /\ lit "vless://x" ∈ fst (process_subscription_file scenario).
Proof.
  assert (Hout : sum_txt (fst (main scenario))
                 = Some (lit "ss://z\nvless://x\nvmess://y\n"))
    by (vm_compute; reflexivity).
  assert (Hline : lit "vless://x"
                  ∈ split LF (lit "ss://z\nvless://x\nvmess://y\n"))
    by (vm_compute; apply list_elem_of_further, list_elem_of_here).
  assert (Hne : lit "vless://x" <> []) by discriminate.
  split; [exact Hout|]. split; [exact Hline|]. split; [exact Hne|].
  exact (written_lines_recognised scenario _ _ Hout Hline Hne).
Defined.

(** [main] exits with status 0 exactly when some URL of the subscription
    file, before every URL whose request raises outside
    [RequestException], contributes an entry, and with status 1 otherwise;
    the output file is created exactly when the status is 0 and the file
    can be opened. *)
Theorem main_exit_status (w : world) :
  (exit_status (fst (main w)) = 0%nat
   <-> exists text url e,
         subs_txt w = Contents text
         /\ url ∈ processed (get w) (read_urls text)
         /\ e ∈ contribution w url)
  /\ (exit_status (fst (main w)) = 0%nat \/ exit_status (fst (main w)) = 1%nat)
  /\ (sum_txt (fst (main w)) = None
      <-> exit_status (fst (main w)) = 1%nat \/ sum_txt_writable w = false).
Proof.
  rewrite main_fst. unfold outcome_of.
  destruct (bool_decide_reflect (fst (process_subscription_file w) = ∅))
    as [E|E]; cbn [exit_status sum_txt].
  - split; [|split; [by right|split; [by left|done]]]. split; [done|].
    intros (text & url & e & Hw & Hu & He).
    assert (H : e ∈ fst (process_subscription_file w))
      by (apply elem_of_aggregate; by exists text, url).
    rewrite E in H. by apply elem_of_empty in H.
  - split; [|split; [by left|]].
    + split; [|done]. intros _.
      apply set_choose_L in E
        as (e & (text & url & ? & ? & ?)%elem_of_aggregate).
      by exists text, url, e.
    + destruct (sum_txt_writable w); split; try done; [|by right].
      by intros [|].
Qed.

(** When the subscription file is missing, cannot be read, or holds white
    space only, nothing is fetched and nothing is written, and [main] exits
    with status 1, whatever the network would answer. *)
Theorem no_sources_no_network (net : str -> get_result) (writable : bool)
    (ws : str) (Hws : blank ws) :
  main (World NotFound net writable)
  = (Outcome None 1, [Banner; FileNotFound; NoConfigurationsFound])
  /\ main (World Unreadable net writable)
     = (Outcome None 1, [Banner; ErrorProcessing; NoConfigurationsFound])
  /\ main (World (Contents ws) net writable)
     = (Outcome None 1, [Banner; FoundUrls 0; NoConfigurationsFound]).
Proof.
  split; [reflexivity|]. split; [reflexivity|].
  unfold main, process_subscription_file. cbn [subs_txt]. cbv zeta.
  by rewrite (read_urls_blank ws Hws).
Qed.

Lemma no_sources_no_network_witness :
  blank (lit " \n ")
  /\ main (World (Contents (lit " \n ")) scenario_get true)
     = (Outcome None 1, [Banner; FoundUrls 0; NoConfigurationsFound]).
Proof.
  assert (Hws : blank (lit " \n ")) by (repeat constructor).
  split; [exact Hws|].
  exact (proj2 (proj2 (no_sources_no_network scenario_get true _ Hws))).
Defined.

(** ** The order of requests and pauses *)

Lemma schedule_app (t1 t2 : list event) :
  schedule (t1 ++ t2) = schedule t1 ++ schedule t2.
Proof. apply flat_map_app. Qed.

Lemma schedule_fetch (w : world) (url : str) :
  schedule (snd (fetch_subscription_content w url)) = [HttpGet url].
Proof.
  unfold fetch_subscription_content.
  destruct (get w url) as [e| |status_code text]; [done|done|].
  by destruct (raise_for_status status_code).
Qed.

Lemma schedule_extract (content : str) :
  schedule (snd (extract_configs_from_content content)) = [].
Proof.
  unfold extract_configs_from_content, decode_base64_configs.
  destruct (is_base64_encoded _); [|done]. by destruct (_ ≫= _).
Qed.

Lemma schedule_process_url (w : world) (n i : nat) (url : str)
    (all_configs : gset str) :
  schedule (snd (process_url w n i url all_configs))
  = Processing i n url :: HttpGet url
    :: (if raises_other (get w url) then [] else [Sleep 1]).
Proof.
  destruct (raises_other (get w url)) eqn:Hr.
  - by rewrite (process_url_abort w n i url all_configs Hr).
  - rewrite process_url_snd.
    change (schedule (Processing i n url :: ?t))
      with (Processing i n url :: schedule t).
    rewrite schedule_app, schedule_fetch.
    destruct (fetch_returns w url Hr) as (content & ->).
    rewrite schedule_app. destruct (truthy content).
    + by rewrite schedule_app, schedule_extract.
    + done.
Qed.

Lemma schedule_process_urls (w : world) (n i : nat) (urls : list str)
    (all_configs : gset str) :
  schedule (snd (process_urls w n i urls all_configs))
  = announcements (get w) n i urls.
Proof.
  revert i all_configs. induction urls as [|url urls IH]; intros i all_configs.
  - done.
  - cbn [process_urls announcements].
    rewrite snd_bind, schedule_app, schedule_process_url.
    destruct (raises_other (get w url)) eqn:Hr.
    + by rewrite (process_url_abort w n i url all_configs Hr).
    + by rewrite (process_url_done w n i url all_configs Hr), IH.
Qed.

Lemma schedule_write (w : world) (configs : gset str) :
  schedule (snd (write_sum_file w configs)) = [].
Proof.
  unfold write_sum_file. destruct (sum_txt_writable w); [|done].
  cbv zeta. rewrite snd_bind, snd_ret.
  by destruct (fst (write_lines (sorted configs))).
Qed.

(** The URLs are requested in the order of the subscription file; the k-th
    of n is announced as k/n, counting from 1, then requested once, then
    followed by exactly one pause of one second, whether its fetch returns
    a body or fails with a [RequestException].  At the first URL whose
    request raises another exception the run stops requesting: no pause
    follows and no further URL is announced. *)
Theorem schedule_of_run (net : str -> get_result) (writable : bool)
    (text : str) :
  schedule (snd (main (World (Contents text) net writable)))
  = announcements net (length (read_urls text)) 1 (read_urls text).
Proof.
  unfold main. rewrite !snd_bind, !schedule_app.
  unfold process_subscription_file at 1. cbn [subs_txt]. cbv zeta.
  rewrite snd_bind, schedule_app, schedule_process_urls. cbn [get].
  destruct (bool_decide _).
  - cbn. by rewrite app_nil_r.
  - rewrite !snd_bind, !schedule_app, schedule_write. cbn.
    by rewrite app_nil_r.
Qed.

(** ** What the detector accepts *)

Lemma a2b_lt c v : a2b c = Some v -> v < 64.
Proof.
  unfold a2b.
  destruct (N.leb_spec 65 c), (N.leb_spec c 90); cbn [andb];
    [intros [= <-]; lia|..];
  (destruct (N.leb_spec 97 c), (N.leb_spec c 122); cbn [andb];
    [intros [= <-]; lia|..]);
  (destruct (N.leb_spec 48 c), (N.leb_spec c 57); cbn [andb];
    [intros [= <-]; lia|..]);
  (destruct (c =? 43); [intros [= <-]; lia|]);
  (destruct (c =? 47); [intros [= <-]; lia|done]).
Qed.

Lemma written_octet1 l v :
  l < 64 -> v < 64 -> N.lor (N.shiftl l 2) (N.shiftr v 4) < 256.
Proof.
  intros Hl Hv. apply N.ltb_lt.
  assert (Hl' : l < 256) by lia. assert (Hv' : v < 256) by lia.
  assert (E : implb ((l <? 64) && (v <? 64))
                (N.lor (N.shiftl l 2) (N.shiftr v 4) <? 256) = true)
    by exhaust2 (fun l v => implb ((l <? 64) && (v <? 64))
                   (N.lor (N.shiftl l 2) (N.shiftr v 4) <? 256)) l v Hl' Hv'.
  apply N.ltb_lt in Hl, Hv. by rewrite Hl, Hv in E.
Qed.

Lemma written_octet2 l v :
  l < 16 -> v < 64 -> N.lor (N.shiftl l 4) (N.shiftr v 2) < 256.
Proof.
  intros Hl Hv. apply N.ltb_lt.
  assert (Hl' : l < 256) by lia. assert (Hv' : v < 256) by lia.
  assert (E : implb ((l <? 16) && (v <? 64))
                (N.lor (N.shiftl l 4) (N.shiftr v 2) <? 256) = true)
    by exhaust2 (fun l v => implb ((l <? 16) && (v <? 64))
                   (N.lor (N.shiftl l 4) (N.shiftr v 2) <? 256)) l v Hl' Hv'.
  apply N.ltb_lt in Hl, Hv. by rewrite Hl, Hv in E.
Qed.

Lemma written_octet3 l v :
  l < 4 -> v < 64 -> N.lor (N.shiftl l 6) v < 256.
Proof.
  intros Hl Hv. apply N.ltb_lt.
  assert (Hl' : l < 256) by lia. assert (Hv' : v < 256) by lia.
  assert (E : implb ((l <? 4) && (v <? 64))
                (N.lor (N.shiftl l 6) v <? 256) = true)
    by exhaust2 (fun l v => implb ((l <? 4) && (v <? 64))
                   (N.lor (N.shiftl l 6) v <? 256)) l v Hl' Hv'.
  apply N.ltb_lt in Hl, Hv. by rewrite Hl, Hv in E.
Qed.

Lemma kept_bits v :
  v < 64 -> N.land v 15 < 16 /\ N.land v 3 < 4.
Proof.
  intros Hv.
  assert (E : (N.land v 15 <? 16) && (N.land v 3 <? 4) = true)
    by exhaust1 (fun v => (N.land v 15 <? 16) && (N.land v 3 <? 4)) 64%nat v Hv.
  apply andb_true_iff in E as [E1 E2]. by apply N.ltb_lt in E1, E2.
Qed.

(** The decoder writes octets. *)
Lemma a2b_base64_loop_octets data :
  forall q l p out,
    group_state q l ->
    a2b_base64_loop q l p data = Some out -> is_bytes out.
Proof.
  unfold is_bytes.
  induction data as [|c data IH]; intros q l p out Hs; cbn [a2b_base64_loop].
  - destruct (q =? 0); [|done]. intros [= <-]. constructor.
  - destruct (c =? BASE64_PAD).
    { destruct (2 <=? q); [|by apply IH].
      destruct (4 <=? q + (p + 1)); [|by apply IH].
      intros [= <-]. constructor. }
    destruct (a2b c) as [v|] eqn:Hv; [|by apply IH].
    apply a2b_lt in Hv. destruct (kept_bits v Hv) as [Hk1 Hk2].
    destruct Hs as [->|[[-> Hl]|[[-> Hl]|[-> Hl]]]]; cbn [N.eqb Pos.eqb].
    + apply IH. right. by left.
    + destruct (a2b_base64_loop 2 _ 0 data) as [out'|] eqn:E; [|done].
      cbn. intros [= <-]. constructor; [by apply written_octet1|].
      apply (IH _ _ _ _ (or_intror (or_intror (or_introl (conj eq_refl Hk1)))) E).
    + destruct (a2b_base64_loop 3 _ 0 data) as [out'|] eqn:E; [|done].
      cbn. intros [= <-]. constructor; [by apply written_octet2|].
      apply (IH _ _ _ _ (or_intror (or_intror (or_intror (conj eq_refl Hk2)))) E).
    + destruct (a2b_base64_loop 0 0 0 data) as [out'|] eqn:E; [|done].
      cbn. intros [= <-]. constructor; [by apply written_octet3|].
      apply (IH _ _ _ _ (or_introl eq_refl) E).
Qed.

Lemma b64decode_octets s data : b64decode s = Some data -> is_bytes data.
Proof.
  unfold b64decode, encode_ascii.
  destruct (forallb (fun c => c <? 128) s); [|done].
  cbn. apply a2b_base64_loop_octets. by left.
Qed.

Lemma b2a_in_table v : v < 64 -> b2a v ∈ table_b2a_base64.
Proof.
  intros H. unfold b2a. apply list_elem_of_In, nth_In.
  change (length table_b2a_base64) with 64%nat. lia.
Qed.

Lemma b2a_base64_alphabet data :
  is_bytes data ->
  Forall (fun c => c ∈ table_b2a_base64 \/ c = BASE64_PAD) (b2a_base64 data).
Proof.
  unfold is_bytes.
  induction data as [|x|x y|x y z data IH] using list_ind3; intros H.
  - apply Forall_nil_2.
  - apply Forall_cons in H as [Hx _]. rewrite b2a_base64_one.
    apply Forall_cons_2; [left; by apply b2a_in_table, sextet1_lt|].
    apply Forall_cons_2;
      [left; apply b2a_in_table, sextet2_lt; [done|lia]|].
    apply Forall_cons_2; [by right|].
    apply Forall_cons_2; [by right|]. apply Forall_nil_2.
  - apply Forall_cons in H as [Hx H]. apply Forall_cons in H as [Hy _].
    rewrite b2a_base64_two.
    apply Forall_cons_2; [left; by apply b2a_in_table, sextet1_lt|].
    apply Forall_cons_2; [left; by apply b2a_in_table, sextet2_lt|].
    apply Forall_cons_2;
      [left; apply b2a_in_table, sextet3_lt; [done|lia]|].
    apply Forall_cons_2; [by right|]. apply Forall_nil_2.
  - apply Forall_cons in H as [Hx H]. apply Forall_cons in H as [Hy H].
    apply Forall_cons in H as [Hz H]. rewrite b2a_base64_group.
    apply Forall_cons_2; [left; by apply b2a_in_table, sextet1_lt|].
    apply Forall_cons_2; [left; by apply b2a_in_table, sextet2_lt|].
    apply Forall_cons_2; [left; by apply b2a_in_table, sextet3_lt|].
    apply Forall_cons_2; [left; by apply b2a_in_table, sextet4_lt|].
    by apply IH.
Qed.

Lemma b2a_base64_length data :
  exists k, length (b2a_base64 data) = (4 * k)%nat.
Proof.
  induction data as [|x|x y|x y z data (k & IH)] using list_ind3.
  - by exists 0%nat.
  - by exists 1%nat.
  - by exists 1%nat.
  - exists (S k). rewrite b2a_base64_group. cbn [length]. rewrite IH. lia.
Qed.

Lemma accepted_alphabet text :
  is_base64_encoded text = true ->
  Forall (fun c => c ∈ table_b2a_base64 \/ c = BASE64_PAD) text.
Proof.
  intros (decoded & Hd & <-)%is_base64_encoded_iff.
  apply b64decode_octets in Hd. by apply b2a_base64_alphabet.
Qed.

Lemma accepted_no_colon text : is_base64_encoded text = true -> COLON ∉ text.
Proof.
  intros H Hc. pose proof (accepted_alphabet text H) as HF.
  rewrite Forall_forall in HF. destruct (HF _ Hc) as [Ht|Ht]; [|done].
  revert Ht. apply (bool_decide_eq_false_1 _). vm_compute. reflexivity.
Qed.

(** A string that [is_base64_encoded] accepts has a length that is a
    multiple of four and is made of the 64 characters of the alphabet and
    the pad only; it holds no white space and no colon. *)
Theorem detector_accepts_only_alphabet (text : str)
    (H : is_base64_encoded text = true) :
  (exists k, length text = (4 * k)%nat)
  /\ Forall (fun c => c ∈ table_b2a_base64 \/ c = BASE64_PAD) text
  /\ Forall (fun c => isspace c = false) text
  /\ COLON ∉ text.
Proof.
  split; [|split; [by apply accepted_alphabet|
                   split; [|by apply accepted_no_colon]]].
  - apply is_base64_encoded_iff in H as (decoded & _ & <-).
    apply b2a_base64_length.
  - apply is_base64_encoded_iff in H as (decoded & _ & <-).
    apply b2a_base64_no_space.
Qed.

Lemma detector_accepts_only_alphabet_witness :
  is_base64_encoded (lit "dm1lc3M6Ly95") = true
  /\ (exists k, length (lit "dm1lc3M6Ly95") = (4 * k)%nat)
  /\ Forall (fun c => c ∈ table_b2a_base64 \/ c = BASE64_PAD)
            (lit "dm1lc3M6Ly95")
  /\ Forall (fun c => isspace c = false) (lit "dm1lc3M6Ly95")
  /\ COLON ∉ lit "dm1lc3M6Ly95".
Proof.
  assert (H : is_base64_encoded (lit "dm1lc3M6Ly95") = true)
    by (vm_compute; reflexivity).
  split; [exact H|].
  exact (detector_accepts_only_alphabet _ H).
Defined.

(** ** Raw bodies *)

Lemma keep_config_colon e : keep_config e = true -> COLON ∈ e.
Proof.
  intros (p & rest & Hp & ->)%keep_config_iff.
  apply elem_of_app. left. unfold SCHEMES in Hp.
  repeat (apply elem_of_cons in Hp as [->|Hp];
          [apply (bool_decide_unpack _); vm_compute; exact I|]).
  by apply elem_of_nil in Hp.
Qed.

Lemma stripped_lines_elem (e text : str) :
  e ∈ stripped_lines text -> exists line, line ∈ split LF text /\ e = strip line.
Proof.
  unfold stripped_lines.
  induction (split LF text) as [|l ls IH]; cbn [flat_map].
  - by intros ?%elem_of_nil.
  - rewrite elem_of_app. intros [H|H].
    + destruct (truthy (strip l)); [|by apply elem_of_nil in H].
      apply list_elem_of_singleton in H as ->. exists l. split; [by left|done].
    + destruct (IH H) as (line & ? & ?). exists line. split; [by right|done].
Qed.

Lemma config_line_raw (content e : str) :
  e ∈ stripped_lines content -> keep_config e = true ->
  is_base64_encoded (strip content) = false.
Proof.
  intros He Hk.
  assert (Hc : COLON ∈ strip content).
  { apply elem_of_strip; [reflexivity|].
    destruct (stripped_lines_elem e content He) as (line & Hl & ->).
    apply (split_elem LF COLON content line Hl).
    by apply elem_of_strip_inv, keep_config_colon. }
  destruct (is_base64_encoded (strip content)) eqn:E; [|done].
  by destruct (accepted_no_colon (strip content) E).
Qed.

(** A body with a line that passes the scheme filter is never taken for
    base64: its entries are its trimmed non-empty lines, and nothing is
    logged. *)
Theorem body_with_config_line_is_raw (content e : str)
    (He : e ∈ stripped_lines content) (Hk : keep_config e = true) :
  is_base64_encoded (strip content) = false
  /\ extract_configs_from_content content = (stripped_lines content, []).
Proof.
  pose proof (config_line_raw content e He Hk) as Hb.
  split; [exact Hb|].
  unfold extract_configs_from_content. by rewrite Hb.
Qed.

Lemma body_with_config_line_is_raw_witness :
  lit "vless://x" ∈ stripped_lines (lit "vless://x\nfoo\nvmess://y\n")
  /\ keep_config (lit "vless://x") = true
  /\ is_base64_encoded (strip (lit "vless://x\nfoo\nvmess://y\n")) = false
  /\ extract_configs_from_content (lit "vless://x\nfoo\nvmess://y\n")
     = (stripped_lines (lit "vless://x\nfoo\nvmess://y\n"), []).
Proof.
  assert (He : lit "vless://x"
               ∈ stripped_lines (lit "vless://x\nfoo\nvmess://y\n"))
    by (vm_compute; apply list_elem_of_here).
  assert (Hk : keep_config (lit "vless://x") = true) by reflexivity.
  split; [exact He|]. split; [exact Hk|].
  exact (body_with_config_line_is_raw _ _ He Hk).
Defined.

(** Every entry the extractor returns is non-empty, has no white space at
    either end and holds no line feed; and the extractor either logs
    nothing, or returns no entry and logs one decoding error. *)
Theorem extracted_entries_trimmed (content : str) :
  Forall trimmed_line (fst (extract_configs_from_content content))
  /\ (snd (extract_configs_from_content content) = []
      \/ extract_configs_from_content content = ([], [ErrorDecoding])).
Proof.
  split; [apply extract_trimmed|].
  unfold extract_configs_from_content, decode_base64_configs.
  destruct (is_base64_encoded _); [|by left].
  destruct (_ ≫= _); [by left|by right].
Qed.

(** ** The output as a function of the URLs *)

(** When no request of the list raises an exception outside
    [RequestException], the output file and the exit status depend only on
    which URLs the subscription file holds, not on how often or in which
    order. *)
Theorem output_depends_on_url_set (net : str -> get_result) (writable : bool)
    (text text' : str)
    (Hset : forall u, u ∈ read_urls text <-> u ∈ read_urls text')
    (Hnet : no_abort net (read_urls text)) :
  fst (main (World (Contents text) net writable))
  = fst (main (World (Contents text') net writable)).
Proof.
  assert (Hnet' : no_abort net (read_urls text')).
  { unfold no_abort in *. rewrite Forall_forall in Hnet |- *.
    intros u Hu. by apply Hnet, Hset. }
  rewrite !main_fst. cbn [sum_txt_writable]. f_equal. apply set_eq. intros e.
  rewrite !elem_of_aggregate. cbn [subs_txt get].
  split; intros (t & u & [= <-] & Hu & He).
  - rewrite (processed_no_abort _ _ Hnet) in Hu.
    exists text', u. split; [done|].
    rewrite (processed_no_abort _ _ Hnet'). split; [by apply Hset|].
    by rewrite (contribution_get (World (Contents text') net writable)
                  (World (Contents text) net writable) u eq_refl).
  - rewrite (processed_no_abort _ _ Hnet') in Hu.
    exists text, u. split; [done|].
    rewrite (processed_no_abort _ _ Hnet). split; [by apply Hset|].
    by rewrite (contribution_get (World (Contents text) net writable)
                  (World (Contents text') net writable) u eq_refl).
Qed.

Lemma output_depends_on_url_set_witness :
  (forall u, u ∈ read_urls (lit "http://a,http://b")
             <-> u ∈ read_urls (lit "http://b,http://a\nhttp://b"))
  /\ no_abort scenario_get (read_urls (lit "http://a,http://b"))
  /\ fst (main (World (Contents (lit "http://a,http://b")) scenario_get true))
     = fst (main (World (Contents (lit "http://b,http://a\nhttp://b"))
                        scenario_get true)).
Proof.
  assert (E1 : read_urls (lit "http://a,http://b")
               = [lit "http://a"; lit "http://b"])
    by (vm_compute; reflexivity).
  assert (E2 : read_urls (lit "http://b,http://a\nhttp://b")
               = [lit "http://b"; lit "http://a"; lit "http://b"])
    by (vm_compute; reflexivity).
  assert (Hset : forall u, u ∈ read_urls (lit "http://a,http://b")
                           <-> u ∈ read_urls (lit "http://b,http://a\nhttp://b")).
  { intros u. rewrite E1, E2, !elem_of_cons, elem_of_nil. tauto. }
  assert (Hn : no_abort scenario_get (read_urls (lit "http://a,http://b")))
    by (vm_compute; repeat constructor).
  split; [exact Hset|]. split; [exact Hn|].
  exact (output_depends_on_url_set scenario_get true _ _ Hset Hn).
Defined.

(** ** The final report *)

Lemma main_snd (w : world) :
  snd (main w)
  = Banner
    :: snd (process_subscription_file w)
    ++ (if bool_decide (fst (process_subscription_file w) = ∅)
        then [NoConfigurationsFound]
        else snd (write_sum_file w (fst (process_subscription_file w)))
             ++ [ProcessingComplete
                   (size (fst (process_subscription_file w)))]).
Proof.
  unfold main. rewrite !snd_bind. destruct (bool_decide _); [reflexivity|].
  by rewrite !snd_bind, snd_ret, app_nil_r.
Qed.

Lemma length_sorted (configs : gset str) :
  length (sorted configs) = size configs.
Proof. by rewrite sorted_permutation. Qed.

Lemma written_shorter (lines : list str) :
  forallb encodable lines = false ->
  (length (written lines) < length lines)%nat.
Proof.
  induction lines as [|c lines IH]; [done|].
  cbn [forallb written]. destruct (encodable c); cbn [andb length]; [|lia].
  intros H. apply IH in H. lia.
Qed.

(** When [main] exits with status 0, its trace ends with the report of the
    writer and the line "Processing complete" with the size of the
    aggregate.  The report is "Successfully wrote" with that size exactly
    when the file could be opened and every entry encoded, and then the
    file has that many lines; otherwise it is "Error writing", and the
    file, if it was created, has fewer lines. *)
Theorem reported_count (w : world)
    (Hexit : exit_status (fst (main w)) = 0%nat) :
  exists trace report,
    snd (main w)
    = trace
      ++ [report; ProcessingComplete (size (fst (process_subscription_file w)))]
    /\ ((report = SuccessfullyWrote (size (fst (process_subscription_file w)))
         /\ sum_txt_writable w = true
         /\ forallb encodable (sorted (fst (process_subscription_file w)))
            = true
         /\ exists out,
              sum_txt (fst (main w)) = Some out
              /\ split LF out
                 = sorted (fst (process_subscription_file w)) ++ [[]]
              /\ length (split LF out)
                 = S (size (fst (process_subscription_file w))))
        \/ (report = ErrorWriting
            /\ (sum_txt_writable w = false
                \/ forallb encodable
                     (sorted (fst (process_subscription_file w))) = false)
            /\ forall out,
                 sum_txt (fst (main w)) = Some out ->
                 (length (split LF out)
                  < S (size (fst (process_subscription_file w))))%nat)).
Proof.
  rewrite main_fst in Hexit |- *. unfold outcome_of in *. rewrite main_snd.
  destruct (bool_decide _); [done|]. cbn [sum_txt].
  exists (Banner :: snd (process_subscription_file w)).
  unfold write_sum_file. destruct (sum_txt_writable w).
  - cbv zeta. rewrite snd_bind, snd_ret, write_lines_fst.
    destruct (forallb encodable (sorted (fst (process_subscription_file w))))
      eqn:Henc.
    + exists (SuccessfullyWrote (size (fst (process_subscription_file w)))).
      split; [rewrite ?snd_bind, ?snd_ret; unfold emit; by cbn [fst snd app]|]. left.
      split; [done|]. split; [done|]. split; [done|].
      exists (file_text (written (sorted (fst (process_subscription_file w))))).
      split; [done|]. rewrite split_written, written_all by done.
      split; [done|]. rewrite length_app, length_sorted. cbn. lia.
    + exists ErrorWriting. split; [rewrite ?snd_bind, ?snd_ret; unfold emit; by cbn [fst snd app]|]. right.
      split; [done|]. split; [by right|]. intros out [= <-].
      rewrite split_written, length_app, <- length_sorted. cbn.
      pose proof (written_shorter _ Henc). lia.
  - exists ErrorWriting. split; [rewrite ?snd_bind, ?snd_ret; unfold emit; by cbn [fst snd app]|]. right.
    split; [done|]. split; [by left|]. by intros out.
Qed.

Lemma reported_count_witness :
  exit_status (fst (main surrogate_last)) = 0%nat
  /\ exists trace report,
       snd (main surrogate_last)
       = trace
         ++ [report;
             ProcessingComplete
               (size (fst (process_subscription_file surrogate_last)))]
       /\ ((report
            = SuccessfullyWrote
                (size (fst (process_subscription_file surrogate_last)))
            /\ sum_txt_writable surrogate_last = true
            /\ forallb encodable
                 (sorted (fst (process_subscription_file surrogate_last)))
               = true
            /\ exists out,
                 sum_txt (fst (main surrogate_last)) = Some out
                 /\ split LF out
                    = sorted (fst (process_subscription_file surrogate_last))
                      ++ [[]]
                 /\ length (split LF out)
                    = S (size (fst (process_subscription_file surrogate_last))))
           \/ (report = ErrorWriting
               /\ (sum_txt_writable surrogate_last = false
                   \/ forallb encodable
                        (sorted
                           (fst (process_subscription_file surrogate_last)))
                      = false)
               /\ forall out,
                    sum_txt (fst (main surrogate_last)) = Some out ->
                    (length (split LF out)
                     < S (size (fst (process_subscription_file
                                       surrogate_last))))%nat)).
Proof.
  assert (Hexit : exit_status (fst (main surrogate_last)) = 0%nat)
    by (vm_compute; reflexivity).
  split; [exact Hexit|].
  exact (reported_count surrogate_last Hexit).
Defined.

(** ** Reading the output back *)

Lemma stripped_lines_file_text (lines : list str) :
  Forall trimmed_line lines -> stripped_lines (file_text lines) = lines.
Proof.
  intros H. unfold stripped_lines. rewrite split_file_text.
  - rewrite flat_map_app. cbn. rewrite app_nil_r.
    induction H as [|e lines (Hne & Hs & _) _ IH]; [done|].
    cbn [flat_map]. rewrite Hs, IH. by destruct e.
  - eapply Forall_impl; [exact H|]. by intros e (_ & _ & ?).
Qed.

(** An ascending list without repetition is what [sorted] makes of its
    entries. *)
Lemma sorted_unique (lines : list str) :
  StronglySorted str_le lines -> NoDup lines ->
  sorted (list_to_set lines) = lines.
Proof.
  intros Hs Hn. symmetry.
  apply (StronglySorted_unique str_le); [done|apply sorted_ascending|].
  apply NoDup_Permutation; [done|apply NoDup_sorted|].
  intros e. by rewrite elem_of_sorted, elem_of_list_to_set.
Qed.

(** The file [main] writes is a fixed point of the script: when it is not
    empty and a source answers with it as its body, the body is classified
    raw, its entries are the lines of the file, and the run of which this
    is the only source writes the same file again and exits with status
    0. *)
Theorem output_file_round_trip (w w' : world) (out u : str)
    (status_code : N)
    (Hout : sum_txt (fst (main w)) = Some out)
    (Hne : out <> [])
    (Hsub : subs_txt w' = Contents u)
    (Hu : read_urls u = [u])
    (Hget : get w' u = Response status_code out)
    (Hok : raise_for_status status_code = None)
    (Hopen : sum_txt_writable w' = true) :
  extract_configs_from_content out
  = (written (sorted (fst (process_subscription_file w))), [])
  /\ split LF out
     = written (sorted (fst (process_subscription_file w))) ++ [[]]
  /\ fst (main w') = Outcome (Some out) 0.
Proof.
  rewrite main_fst in Hout. unfold outcome_of in Hout.
  destruct (bool_decide _); [done|]. cbn [sum_txt] in Hout.
  destruct (sum_txt_writable w); [|done]. injection Hout as <-.
  set (lines := written (sorted (fst (process_subscription_file w)))) in *.
  assert (Hin : forall e, e ∈ lines -> e ∈ fst (process_subscription_file w)).
  { intros e He. by apply elem_of_written, elem_of_sorted in He. }
  assert (Htrim : Forall trimmed_line lines).
  { apply Forall_forall. intros e He%Hin.
    by apply aggregate_trimmed in He as [_ ?]. }
  assert (Hl : stripped_lines (file_text lines) = lines)
    by by apply stripped_lines_file_text.
  destruct lines as [|e0 lines0] eqn:Elines; [done|].
  rewrite <- Elines in *.
  assert (He0 : e0 ∈ lines) by (rewrite Elines; by left).
  assert (Hraw : is_base64_encoded (strip (file_text lines)) = false).
  { apply (config_line_raw _ e0); [by rewrite Hl|].
    by apply Hin, aggregate_trimmed in He0 as [? _]. }
  assert (Hx : extract_configs_from_content (file_text lines) = (lines, [])).
  { unfold extract_configs_from_content. by rewrite Hraw, Hl. }
  split; [exact Hx|]. split; [apply split_written|].
  assert (Hagg : fst (process_subscription_file w') = list_to_set lines).
  { apply set_eq. intros e. rewrite elem_of_aggregate, elem_of_list_to_set.
    split.
    - intros (t & url & Ht & Hurl & (sc & body & Hg & _ & He & _)%elem_of_contribution).
      rewrite Hsub in Ht. injection Ht as <-. rewrite Hu in Hurl.
      apply elem_of_processed in Hurl as [->%list_elem_of_singleton _].
      rewrite Hget in Hg. injection Hg as <- <-. by rewrite Hx in He.
    - intros He. exists u, u. split; [done|]. split.
      + rewrite Hu. cbn [processed]. rewrite Hget. by left.
      + apply elem_of_contribution. exists status_code, (file_text lines).
        split; [done|]. split; [done|]. rewrite Hx. split; [done|].
        by apply Hin, aggregate_trimmed in He as [? _]. }
  assert (Hsorted : sorted (list_to_set lines) = lines).
  { destruct (written_prefix (sorted (fst (process_subscription_file w))))
      as (rest & E & _).
    apply sorted_unique.
    - pose proof (sorted_ascending (fst (process_subscription_file w))) as H.
      rewrite E in H. by apply StronglySorted_app_1_l in H.
    - by apply NoDup_written, NoDup_sorted. }
  rewrite main_fst, Hagg, Hopen. unfold outcome_of.
  rewrite bool_decide_eq_false_2.
  - rewrite Hsorted. unfold lines at 1.
    rewrite written_all; [done|apply written_encodable].
  - intros E. apply (elem_of_list_to_set (C := gset str)) in He0.
    rewrite E in He0. by apply elem_of_empty in He0.
Qed.

Lemma output_file_round_trip_witness :
  sum_txt (fst (main surrogate_last)) = Some (lit "ss://z\n")
  /\ lit "ss://z\n" <> []
  /\ read_urls (lit "http://c") = [lit "http://c"]
  /\ extract_configs_from_content (lit "ss://z\n")
     = (written (sorted (fst (process_subscription_file surrogate_last))), [])
  /\ split LF (lit "ss://z\n")
     = written (sorted (fst (process_subscription_file surrogate_last)))
       ++ [[]]
  /\ fst (main (World (Contents (lit "http://c"))
                      (fun _ => Response 200 (lit "ss://z\n")) true))
     = Outcome (Some (lit "ss://z\n")) 0.
Proof.
  assert (Hout : sum_txt (fst (main surrogate_last)) = Some (lit "ss://z\n"))
    by (vm_compute; reflexivity).
  assert (Hne : lit "ss://z\n" <> []) by discriminate.
  assert (Hu : read_urls (lit "http://c") = [lit "http://c"])
    by (vm_compute; reflexivity).
  split; [exact Hout|]. split; [exact Hne|]. split; [exact Hu|].
  exact (output_file_round_trip surrogate_last
           (World (Contents (lit "http://c"))
                  (fun _ => Response 200 (lit "ss://z\n")) true)
           _ _ 200 Hout Hne eq_refl Hu eq_refl eq_refl eq_refl).
Defined.

(** ** The URLs of the subscription file *)

Lemma fragments_tokens (line : str) :
  LF ∉ line -> Forall url_token (fragments line).
Proof.
  intros Hline. unfold fragments.
  assert (H : Forall (fun p => (COMMA ∉ p) /\ (LF ∉ p)) (split COMMA line)).
  { apply Forall_forall. intros p Hp. split.
    - pose proof (split_pieces COMMA line) as HF.
      rewrite Forall_forall in HF. by apply HF.
    - intros Hc. apply Hline. by apply (split_elem COMMA LF line p). }
  induction H as [|p ps [Hc Hl] _ IH]; [constructor|].
  cbn [flat_map]. destruct (truthy (strip p)) eqn:Ht; [|done].
  constructor; [|done]. split; [|by apply strip_no_sep].
  split; [by apply truthy_true|].
  split; [apply strip_idem|by apply strip_no_sep].
Qed.

Lemma read_urls_tokens (text : str) : Forall url_token (read_urls text).
Proof.
  rewrite read_urls_lines. pose proof (split_pieces LF text) as H.
  induction H as [|line lines Hl _ IH]; [constructor|].
  cbn [flat_map]. apply Forall_app. split; [by apply fragments_tokens|done].
Qed.

Lemma read_urls_token (u : str) : url_token u -> read_urls u = [u].
Proof.
  intros ((Hne & Hs & Hl) & Hc).
  rewrite read_urls_lines, (split_no_sep LF u Hl). cbn [flat_map].
  rewrite app_nil_r. unfold fragments. rewrite (split_no_sep COMMA u Hc).
  cbn [flat_map]. rewrite Hs, app_nil_r. by destruct u.
Qed.

Lemma read_urls_nil : read_urls [] = [].
Proof. reflexivity. Qed.

(** Every URL read from the subscription file is non-empty, has no white
    space at either end, and holds no comma and no line feed.  Such URLs
    written one per line, or on one line with a comma after each, are read
    back as they were; so reading is stable: the URLs read, written out and
    read again, are the same. *)
Theorem read_urls_stable (text : str) (urls : list str)
    (Hurls : Forall url_token urls) :
  Forall url_token (read_urls text)
  /\ read_urls (file_text urls) = urls
  /\ read_urls (comma_joined urls) = urls
  /\ read_urls (file_text (read_urls text)) = read_urls text.
Proof.
  assert (Hlines : forall us, Forall url_token us ->
                              read_urls (file_text us) = us).
  { induction 1 as [|u us Hu _ IH]; [reflexivity|].
    unfold file_text in *. cbn [flat_map]. rewrite <- app_assoc. cbn [app].
    by rewrite read_urls_newline, IH, (read_urls_token u Hu). }
  split; [apply read_urls_tokens|]. split; [by apply Hlines|].
  split; [|apply Hlines, read_urls_tokens].
  induction Hurls as [|u us Hu _ IH]; [reflexivity|].
  unfold comma_joined in *. cbn [flat_map]. rewrite <- app_assoc. cbn [app].
  by rewrite read_urls_comma, IH, (read_urls_token u Hu).
Qed.

Lemma read_urls_stable_witness :
  Forall url_token [lit "http://a"; lit "http://b"]
  /\ read_urls (file_text [lit "http://a"; lit "http://b"])
     = [lit "http://a"; lit "http://b"]
  /\ read_urls (comma_joined [lit "http://a"; lit "http://b"])
     = [lit "http://a"; lit "http://b"].
Proof.
  assert (H : Forall url_token [lit "http://a"; lit "http://b"]).
  { repeat constructor; try discriminate;
      apply (bool_decide_unpack _); vm_compute; exact I. }
  pose proof (read_urls_stable (lit " a , b ") _ H) as (_ & H1 & H2 & _).
  split; [exact H|]. split; [exact H1|exact H2].
Defined.

(** ** White space around a base64 body *)

Lemma space_skipped c : isspace c = true -> (c <? 128) = true -> skipped c = true.
Proof.
  intros Hs Ha. apply N.ltb_lt in Ha.
  assert (E : implb (isspace c) (skipped c) = true)
    by exhaust1 (fun c => implb (isspace c) (skipped c)) 128%nat c Ha.
  by rewrite Hs in E.
Qed.

Lemma loop_skip q l p c rest :
  skipped c = true ->
  a2b_base64_loop q l p (c :: rest) = a2b_base64_loop q l p rest.
Proof.
  unfold skipped. intros [[_ Hp%negb_true_iff]%andb_true_iff Ha]%andb_true_iff.
  cbn [a2b_base64_loop]. rewrite Hp. by destruct (a2b c).
Qed.

Lemma loop_skip_all q l p ws rest :
  forallb skipped ws = true ->
  a2b_base64_loop q l p (ws ++ rest) = a2b_base64_loop q l p rest.
Proof.
  induction ws as [|c ws IH]; [done|].
  cbn [forallb app]. intros [Hc Hws]%andb_true_iff.
  by rewrite loop_skip, IH.
Qed.

(** The decoder inverts the encoder also when skipped characters follow. *)
Lemma a2b_b2a_base64_then data ws :
  is_bytes data -> forallb skipped ws = true ->
  a2b_base64_loop 0 0 0 (b2a_base64 data ++ ws) = Some data.
Proof.
  unfold is_bytes. intros H Hws. revert H.
  induction data as [|x|x y|x y z data IH] using list_ind3; intros H.
  - change (b2a_base64 [] ++ ws) with ws.
    rewrite <- (app_nil_r ws), loop_skip_all by done. reflexivity.
  - apply Forall_cons in H as [Hx _].
    rewrite b2a_base64_one, <- !app_comm_cons.
    rewrite loop_first by by apply sextet1_lt.
    rewrite loop_second by (apply sextet2_lt; [done|lia]).
    rewrite octet1 by (done || lia). reflexivity.
  - apply Forall_cons in H as [Hx H]. apply Forall_cons in H as [Hy _].
    rewrite b2a_base64_two, <- !app_comm_cons.
    rewrite loop_first by by apply sextet1_lt.
    rewrite loop_second by by apply sextet2_lt.
    rewrite loop_third by (apply sextet3_lt; [done|lia]).
    rewrite octet1 by done.
    rewrite (octet2 x y 0) by (done || lia). reflexivity.
  - apply Forall_cons in H as [Hx H]. apply Forall_cons in H as [Hy H].
    apply Forall_cons in H as [Hz H].
    rewrite b2a_base64_group, <- !app_comm_cons.
    rewrite loop_first by by apply sextet1_lt.
    rewrite loop_second by by apply sextet2_lt.
    rewrite loop_third by by apply sextet3_lt.
    rewrite loop_fourth by by apply sextet4_lt.
    unfold char in *. rewrite IH by done.
    rewrite octet1, (octet2 x y z), octet3 by done. reflexivity.
Qed.

Lemma strip_blank_app w s : blank w -> strip (w ++ s) = strip s.
Proof. intros Hw. unfold strip. by rewrite lstrip_blank_app. Qed.

Lemma strip_around (ws1 ws2 : str) (B : bytes) :
  blank ws1 -> blank ws2 ->
  strip (ws1 ++ b64encode B ++ ws2) = b64encode B.
Proof.
  intros H1 H2. rewrite strip_blank_app, strip_app_blank by done.
  apply strip_no_space, b2a_base64_no_space.
Qed.

Lemma blank_ascii_skipped ws :
  blank ws -> forallb (fun c => c <? 128) ws = true ->
  forallb skipped ws = true.
Proof.
  induction 1 as [|c ws Hc _ IH]; [done|].
  cbn [forallb]. intros [Ha Hws]%andb_true_iff.
  by rewrite space_skipped, IH.
Qed.

(** ASCII white space before and after a base64 body changes nothing: the
    body is classified and decoded as without it. *)
Theorem ascii_space_around_base64 (B : bytes) (ws1 ws2 : str)
    (HB : is_bytes B) (H1 : blank ws1) (H2 : blank ws2)
    (Ha : forallb (fun c => c <? 128) (ws1 ++ ws2) = true) :
  is_base64_encoded (strip (ws1 ++ b64encode B ++ ws2)) = true
  /\ b64decode (ws1 ++ b64encode B ++ ws2) = Some B
  /\ extract_configs_from_content (ws1 ++ b64encode B ++ ws2)
     = extract_configs_from_content (b64encode B).
Proof.
  rewrite forallb_app in Ha. apply andb_true_iff in Ha as [Ha1 Ha2].
  assert (Hd : b64decode (ws1 ++ b64encode B ++ ws2) = Some B).
  { unfold b64decode, encode_ascii, b64encode, str, bytes, char in *.
    rewrite !forallb_app, Ha1, Ha2.
    rewrite b2a_base64_ascii. cbn. unfold a2b_base64.
    rewrite loop_skip_all by by apply blank_ascii_skipped.
    apply a2b_b2a_base64_then; [done|by apply blank_ascii_skipped]. }
  assert (Hs : strip (b64encode B) = b64encode B)
    by apply strip_no_space, b2a_base64_no_space.
  split; [rewrite strip_around by done; by apply is_base64_encoded_b64encode|].
  split; [exact Hd|].
  unfold extract_configs_from_content.
  rewrite strip_around, Hs by done. rewrite is_base64_encoded_b64encode by done.
  unfold decode_base64_configs. by rewrite Hd, b64decode_b64encode.
Qed.

Lemma ascii_space_around_base64_witness :
  is_bytes (lit "vmess://y")
  /\ blank (lit " ") /\ blank (lit "\n")
  /\ forallb (fun c => c <? 128) (lit " " ++ lit "\n") = true
  /\ extract_configs_from_content
       (lit " " ++ b64encode (lit "vmess://y") ++ lit "\n")
     = extract_configs_from_content (b64encode (lit "vmess://y")).
Proof.
  assert (HB : is_bytes (lit "vmess://y")) by (repeat constructor).
  assert (H1 : blank (lit " ")) by (repeat constructor).
  assert (H2 : blank (lit "\n")) by (repeat constructor).
  split; [exact HB|]. split; [exact H1|]. split; [exact H2|].
  split; [reflexivity|].
  exact (proj2 (proj2 (ascii_space_around_base64 _ _ _ HB H1 H2 eq_refl))).
Defined.

(** White space outside ASCII (a no-break space, say) before or after a
    base64 body is trimmed for the classification but not for the decoding:
    the body is classified as base64, decoding it raises, and all its
    entries are lost with one decoding error logged. *)
Theorem other_space_around_base64 (B : bytes) (ws1 ws2 : str)
    (HB : is_bytes B) (H1 : blank ws1) (H2 : blank ws2)
    (Hn : forallb (fun c => c <? 128) (ws1 ++ ws2) = false) :
  is_base64_encoded (strip (ws1 ++ b64encode B ++ ws2)) = true
  /\ b64decode (ws1 ++ b64encode B ++ ws2) = None
  /\ extract_configs_from_content (ws1 ++ b64encode B ++ ws2)
     = ([], [ErrorDecoding]).
Proof.
  assert (Hd : b64decode (ws1 ++ b64encode B ++ ws2) = None).
  { unfold b64decode, encode_ascii, b64encode, str, bytes, char in *.
    rewrite forallb_app in Hn. rewrite !forallb_app.
    destruct (forallb (fun c => c <? 128) ws1); [|done].
    cbn [andb] in Hn |- *. by rewrite Hn, andb_false_r. }
  assert (Hc : is_base64_encoded (strip (ws1 ++ b64encode B ++ ws2)) = true)
    by (rewrite strip_around by done; by apply is_base64_encoded_b64encode).
  split; [exact Hc|]. split; [exact Hd|].
  unfold extract_configs_from_content. rewrite Hc.
  unfold decode_base64_configs. by rewrite Hd.
Qed.

Lemma other_space_around_base64_witness :
  is_bytes (lit "vmess://y")
  /\ blank [] /\ blank [160]
  /\ forallb (fun c => c <? 128) ([] ++ [160]) = false
  /\ extract_configs_from_content (b64encode (lit "vmess://y") ++ [160])
     = ([], [ErrorDecoding]).
Proof.
  assert (HB : is_bytes (lit "vmess://y")) by (repeat constructor).
  assert (H1 : blank []) by constructor.
  assert (H2 : blank [160]) by (repeat constructor).
  split; [exact HB|]. split; [exact H1|]. split; [exact H2|].
  split; [reflexivity|].
  exact (proj2 (proj2 (other_space_around_base64 _ [] [160] HB H1 H2 eq_refl))).
Defined.

